(** * Auth0 SSO login: session life cycle of [src/auth0-sso-login.js]

    A shallow embedding of the [auth] class: the token-expiry helper, the
    renewal timer, the silent renewal with its retry loop, the fallback
    to the lock widget, [removeLogin] and [logout].

    Conventions of the embedding.
    - JavaScript numbers that the code uses as integers (seconds,
      milliseconds, timer ids) are [Z]; [Math.floor(x / 3)] on such
      integers is [Z.div].
    - Where the code only tests truthiness, [null] and [undefined] are
      both [None]; a string is truthy when it is present and not empty, a
      timer id when it is not [0].  The [error] property of a provider
      answer and the [authResultError] copied from it are compared with
      [undefined] by the code, so there [None] is [undefined] alone and
      [null] is a value ([JsNull]).
    - A string of the configuration is present or absent ([undefined]).
      Strings that the code only passes on are sequences of UTF-8 bytes;
      the one string it hands to [encodeURIComponent] is kept as its
      UTF-16 code units, on which the builtin's outcome depends.
    - Integer arithmetic is exact; it is the code's arithmetic on doubles
      as long as every operand and result stays within 2^53 in absolute
      value.
    - A promise is represented by the way it ends: [Resolved], [Rejected]
      or [Pending] (never settled).
    - The attempt number of [renewAuth] is a [nat]: it starts at 0 and is
      only ever incremented.
    - Everything outside the class (clock, timers, provider, lock widget,
      management API, hooks) is part of the [World] or of the [Oracle]
      that scripts the collaborators' answers. *)

From stdpp Require Import base option list gmap strings fin_maps.
From Stdlib Require Import ZArith Ascii.

Local Open Scope string_scope.
Local Open Scope list_scope.
Local Open Scope Z_scope.

(** ** Values exchanged with the identity provider *)

(** A property value that is not [undefined]: [null] or a string. *)
Inductive JsValue :=
| JsNull
| JsStr (s : string).

(** An error object.  [e_authResultError = None] is the JavaScript
    [undefined]: the property is absent (or holds [undefined]). *)
Record JsError := mkJsError {
  e_error : string;
  e_errorDescription : string;
  e_authResultError : option JsValue
}.

Record IdTokenPayload := mkPayload { sub : string }.

(** The [authResult] object handed over by auth0.js and by the lock. *)
Record AuthResult := mkAuthResult {
  accessToken : option string;
  idToken : option string;
  idTokenPayload : option IdTokenPayload;
  expiresIn : Z;
  error : option JsValue
}.

(** What [renewAuth] resolves with and what the profile fetch consumes. *)
Record LoginInfo := mkLoginInfo {
  li_idToken : option string;
  li_sub : string
}.

Definition Profile := string.

Inductive Outcome (A : Type) : Type :=
| Resolved (a : A)
| Rejected (e : JsError)
| Pending.
Arguments Resolved {A} a.
Arguments Rejected {A} e.
Arguments Pending {A}.

(** JavaScript truthiness of the values the code tests. *)
Definition truthy_string (v : option string) : bool :=
  match v with
  | Some (String _ _) => true
  | _ => false
  end.

Definition truthy_handle (h : option Z) : bool :=
  match h with
  | Some id => negb (id =? 0)
  | None => false
  end.

(** ** Configuration *)

(** What the promise returned by a configured hook does.  A hook that
    returns no promise is [HookResolves] where the class returns its
    value, and [HookNeverSettles] where the class calls [.then] on it. *)
Inductive HookBehaviour :=
| HookResolves
| HookRejects (e : JsError)
| HookNeverSettles.

(** [config.hooks]: a property is [None] / [false] when it is absent. *)
Record Hooks := mkHooks {
  hook_log : bool;
  hook_tokenRefreshed : option HookBehaviour;
  hook_profileRefreshed : option HookBehaviour;
  hook_removeLogin : option HookBehaviour;
  hook_logout : bool
}.

Record AuthOptions := mkAuthOptions {
  responseType : string;
  redirect : bool
}.

Record LockOptions := mkLockOptions {
  auth : AuthOptions;
  closable : bool
}.

(** [config.auth0LockOptions]: the properties it overrides. *)
Record LockOverrides := mkLockOverrides {
  over_auth : option AuthOptions;
  over_closable : option bool
}.

Record Config := mkConfig {
  domain : option string;
  clientId : option string;
  audience : option string;
  loginRedirectUri : option string;
  logoutRedirectUri : option (list Z);
  auth0LockOptions : option LockOverrides;
  hooks : option Hooks
}.

(** ** The world: the [auth] object and its environment *)

Inductive TimerCallback :=
| CallEnsureLoggedIn (enableLockWidget : bool).

Record Timer := mkTimer {
  callback : TimerCallback;
  delay : Z
}.

Inductive LogSink := HookLog | ConsoleLog.

Inductive LogMessage :=
| MsgRenewFailed (retries : nat) (err : JsError)
| MsgFallbackToWidget
| MsgError (err : JsError).

Inductive Event :=
| EvLog (sink : LogSink) (m : LogMessage)
| EvRenewAuth
| EvRetryDelay (ms : Z)
| EvSetTimeout (id : Z) (t : Timer)
| EvClearTimeout (id : Z)
| EvHookTokenRefreshed (a : AuthResult)
| EvHookProfileRefreshed (p : Profile)
| EvHookRemoveLogin
| EvHookLogout
| EvLockNew (o : LockOptions)
| EvLockShow
| EvLockHide
| EvLockGetUserInfo (token : option string)
| EvGetUser (token : option string) (s : string)
| EvUpdateWindow (url : string).

Record World := mkWorld {
  (* the fields of the [auth] instance *)
  config : Config;
  tokenRefreshHandle : option Z;
  authResult : option AuthResult;
  (* the clock: the next reading and the drift after each later reading *)
  now : Z;
  ticks : list Z;
  (* the window's timer table *)
  nextTimer : Z;
  timers : gmap Z Timer;
  (* window.location once it has been assigned *)
  location : option string;
  (* every call that left the class, oldest first *)
  trace : list Event
}.

Definition set_tokenRefreshHandle (h : option Z) (w : World) : World :=
  mkWorld (config w) h (authResult w) (now w) (ticks w)
          (nextTimer w) (timers w) (location w) (trace w).

Definition set_authResult (a : option AuthResult) (w : World) : World :=
  mkWorld (config w) (tokenRefreshHandle w) a (now w) (ticks w)
          (nextTimer w) (timers w) (location w) (trace w).

Definition set_clock (t : Z) (ds : list Z) (w : World) : World :=
  mkWorld (config w) (tokenRefreshHandle w) (authResult w) t ds
          (nextTimer w) (timers w) (location w) (trace w).

Definition set_timers (n : Z) (ts : gmap Z Timer) (w : World) : World :=
  mkWorld (config w) (tokenRefreshHandle w) (authResult w) (now w) (ticks w)
          n ts (location w) (trace w).

Definition set_location (l : option string) (w : World) : World :=
  mkWorld (config w) (tokenRefreshHandle w) (authResult w) (now w) (ticks w)
          (nextTimer w) (timers w) l (trace w).

Definition emit (ev : Event) (w : World) : World :=
  mkWorld (config w) (tokenRefreshHandle w) (authResult w) (now w) (ticks w)
          (nextTimer w) (timers w) (location w) (trace w ++ [ev]).

(** ** windowInteraction and the clock *)

(** [Date.now()]: the current reading; the clock then moves on by the next
    scripted drift (it stands still once the script is used up). *)
Definition Date_now (w : World) : Z * World :=
  match ticks w with
  | [] => (now w, w)
  | d :: ds => (now w, set_clock (now w + d) ds w)
  end.

(** Time passing between two tasks of the event loop. *)
Definition elapse (ms : Z) (w : World) : World :=
  set_clock (now w + ms) (ticks w) w.

Definition updateWindow (url : string) (w : World) : World :=
  emit (EvUpdateWindow url) (set_location (Some url) w).

(** [window.setTimeout] hands out the ids 1, 2, 3, ... *)
Definition setTimeout (cb : TimerCallback) (ms : Z) (w : World) : Z * World :=
  let id := nextTimer w in
  let t := mkTimer cb ms in
  (id, emit (EvSetTimeout id t) (set_timers (id + 1) (<[id := t]> (timers w)) w)).

Definition clearTimeout (id : Z) (w : World) : World :=
  emit (EvClearTimeout id) (set_timers (nextTimer w) (delete id (timers w)) w).

(** ** The expiry helper *)

(** [getRemainingMillisToTokenEpxiry] on the two clock readings it takes:
    [t1] is the reading inside [tokenExpiresAt], [t2] the one subtracted
    from it.  The arithmetic is exact; the code's doubles give the same
    value as long as [expiresIn * 1000], the readings and their sum stay
    within 2^53. *)
Definition remainingMillis (a : AuthResult) (t1 t2 : Z) : Z :=
  let tokenExpiresAt := expiresIn a * 1000 + t1 in
  (tokenExpiresAt - t2) / 3 * 2.

Definition getRemainingMillisToTokenEpxiry (a : AuthResult) (w : World) : Z * World :=
  let '(t1, w1) := Date_now w in
  let '(t2, w2) := Date_now w1 in
  (remainingMillis a t1 t2, w2).

(** The drift between the two readings of one call. *)
Definition drift (w : World) : Z :=
  match ticks w with
  | [] => 0
  | d :: _ => d
  end.

(** ** Strings the browser builds *)

(** A value interpolated into a template literal or passed where a string
    is expected: an absent property reads ["undefined"]. *)
Definition js_string (v : option string) : string :=
  match v with
  | Some s => s
  | None => "undefined"
  end.

(** The characters [encodeURIComponent] leaves alone:
    letters, digits and [- _ . ! ~ * ' ( )]. *)
Definition uriUnescaped (c : ascii) : bool :=
  let n := nat_of_ascii c in
  ((65 <=? n) && (n <=? 90) || (97 <=? n) && (n <=? 122)
   || (48 <=? n) && (n <=? 57)
   || existsb (Nat.eqb n) [45; 95; 46; 33; 126; 42; 39; 40; 41])%nat.

Definition hexDigit (n : nat) : ascii :=
  match String.get n "0123456789ABCDEF" with
  | Some c => c
  | None => "0"%char
  end.

(** The code units of a string of ASCII characters. *)
Fixpoint unitsOfString (s : string) : list Z :=
  match s with
  | EmptyString => []
  | String c rest => Z.of_nat (nat_of_ascii c) :: unitsOfString rest
  end.

(** The argument of [encodeURIComponent] after [ToString]: an absent
    property reads ["undefined"]. *)
Definition js_units (v : option (list Z)) : list Z :=
  match v with
  | Some s => s
  | None => unitsOfString "undefined"
  end.

Definition unitUnescaped (u : Z) : bool :=
  (0 <=? u) && (u <? 128) && uriUnescaped (ascii_of_nat (Z.to_nat u)).

(** The surrogate halves: [0xD800 .. 0xDBFF] and [0xDC00 .. 0xDFFF]. *)
Definition isHighSurrogate (u : Z) : bool := (0xD800 <=? u) && (u <=? 0xDBFF).

Definition isLowSurrogate (u : Z) : bool := (0xDC00 <=? u) && (u <=? 0xDFFF).

(** The code point of a surrogate pair. *)
Definition pairCodePoint (hi lo : Z) : Z :=
  (hi - 0xD800) * 0x400 + (lo - 0xDC00) + 0x10000.

(** The UTF-8 octets of a code point. *)
Definition utf8Octets (v : Z) : list Z :=
  if v <? 0x80 then [v]
  else if v <? 0x800 then [0xC0 + v / 64; 0x80 + v mod 64]
  else if v <? 0x10000 then
    [0xE0 + v / 4096; 0x80 + (v / 64) mod 64; 0x80 + v mod 64]
  else
    [0xF0 + v / 262144; 0x80 + (v / 4096) mod 64; 0x80 + (v / 64) mod 64;
     0x80 + v mod 64].

(** [%XX], in upper-case hexadecimal. *)
Definition percentEscape (octet : Z) (rest : string) : string :=
  String "%" (String (hexDigit (Z.to_nat (octet / 16)))
    (String (hexDigit (Z.to_nat (octet mod 16))) rest)).

Definition escapeOctets (octets : list Z) (rest : string) : string :=
  fold_right percentEscape rest octets.

(** [encodeURIComponent] (ECMAScript's [Encode] with the unescaped set
    above) on the code units of its argument.  [None] is the [URIError]
    it throws on a surrogate half without its other half. *)
Fixpoint encodeURIComponent (s : list Z) : option string :=
  match s with
  | [] => Some EmptyString
  | c :: rest =>
      if unitUnescaped c then
        option_map (String (ascii_of_nat (Z.to_nat c))) (encodeURIComponent rest)
      else if isLowSurrogate c then None
      else if negb (isHighSurrogate c) then
        option_map (escapeOctets (utf8Octets c)) (encodeURIComponent rest)
      else
        match rest with
        | [] => None
        | k :: rest' =>
            if isLowSurrogate k then
              option_map (escapeOctets (utf8Octets (pairCodePoint c k)))
                         (encodeURIComponent rest')
            else None
        end
  end.

(** The URL [logout] builds; [None] when [encodeURIComponent] throws. *)
Definition logoutUrl (c : Config) : option string :=
  match encodeURIComponent (js_units (logoutRedirectUri c)) with
  | Some redirectUri =>
      Some ("https://" +:+ js_string (domain c) +:+ "/v2/logout?returnTo="
            +:+ redirectUri +:+ "&client_id=" +:+ js_string (clientId c))
  | None => None
  end.

(** ** The collaborators' answers *)

(** The callback of [webAuth.renewAuth(renewOptions, (err, authResult) => ...)]:
    [RenewError err] is a truthy [err]; [RenewData a] a falsy [err] with
    [authResult = a] ([None]: [null] or [undefined]). *)
Inductive RenewResponse :=
| RenewError (err : JsError)
| RenewData (a : option AuthResult).

(** What the lock widget emits after [lock.show()].  The code listens to
    ['authenticated'] and ['authorization_error'] only; [LockHidden] is
    the widget being closed by the user (possible when [closable] is
    overridden), for which no handler is registered. *)
Inductive LockEvent :=
| LockAuthenticated (a : AuthResult)
| LockAuthorizationError (e : JsError)
| LockHidden.

(** The callback of [lock.getUserInfo]: an error, or a profile's [sub]. *)
Inductive UserInfoResponse :=
| UserInfoError (e : JsError)
| UserInfoProfile (s : string).

(** The callback of the management API's [getUser]. *)
Inductive GetUserResponse :=
| GetUserError (e : JsError)
| GetUserProfile (p : Profile).

(** The answers still to come; an exhausted script is a collaborator that
    never calls back. *)
Record Oracle := mkOracle {
  renewals : list RenewResponse;
  lockEvents : list LockEvent;
  userInfos : list UserInfoResponse;
  users : list GetUserResponse
}.

Record Configuration := mkConfiguration { enableLockWidget : bool }.

(** ** The [auth] class *)

(** [constructor(config)]: [this.config = config || {}], in a window whose
    clock reads [t0] and whose timer table is empty. *)
Definition emptyConfig : Config :=
  mkConfig None None None None None None None.

Definition constructor (c : option Config) (t0 : Z) (ds : list Z) : World :=
  mkWorld (default emptyConfig c) None None t0 ds 1 ∅ None [].

(** [(this.config.hooks ? this.config.hooks.log : undefined) || console.log]. *)
Definition logSink (c : Config) : LogSink :=
  match hooks c with
  | Some h => if hook_log h then HookLog else ConsoleLog
  | None => ConsoleLog
  end.

Definition log (m : LogMessage) (w : World) : World :=
  emit (EvLog (logSink (config w)) m) w.

Definition getDetailedProfile (li : LoginInfo) (us : list GetUserResponse) (w : World)
  : Outcome Profile * list GetUserResponse * World :=
  let w1 := emit (EvGetUser (li_idToken li) (li_sub li)) w in
  match us with
  | [] => (Pending, [], w1)
  | GetUserError e :: us' => (Rejected e, us', w1)
  | GetUserProfile p :: us' => (Resolved p, us', w1)
  end.

Definition getLatestAuthResult (w : World) : option AuthResult := authResult w.

(** The promise a hook returns. *)
Definition hookOutcome (b : HookBehaviour) : Outcome unit :=
  match b with
  | HookResolves => Resolved tt
  | HookRejects e => Rejected e
  | HookNeverSettles => Pending
  end.

(** [config.hooks && config.hooks.<name>] for a hook that returns a promise. *)
Definition configuredHook (sel : Hooks -> option HookBehaviour) (c : Config)
  : option HookBehaviour :=
  match hooks c with
  | Some h => sel h
  | None => None
  end.

Definition profileRefreshed (p : Profile) (w : World) : Outcome unit * World :=
  match configuredHook hook_profileRefreshed (config w) with
  | Some b => (hookOutcome b, emit (EvHookProfileRefreshed p) w)
  | None => (Resolved tt, w)
  end.

(** [if (this.tokenRefreshHandle) windowInteraction.clearTimeout(...)]. *)
Definition clearRefreshTimer (w : World) : World :=
  match tokenRefreshHandle w with
  | Some id => if truthy_handle (Some id) then clearTimeout id w else w
  | None => w
  end.

Definition tokenRefreshed (a : AuthResult) (w : World) : Outcome unit * World :=
  let w1 := set_authResult (Some a) w in
  let w2 := clearRefreshTimer w1 in
  let '(ms, w3) := getRemainingMillisToTokenEpxiry a w2 in
  let '(id, w4) := setTimeout (CallEnsureLoggedIn true) ms w3 in
  let w5 := set_tokenRefreshHandle (Some id) w4 in
  match configuredHook hook_tokenRefreshed (config w5) with
  | Some b => (hookOutcome b, emit (EvHookTokenRefreshed a) w5)
  | None => (Resolved tt, w5)
  end.

Definition removeLogin (w : World) : Outcome unit * World :=
  let w1 :=
    match tokenRefreshHandle w with
    | Some id =>
        if truthy_handle (Some id)
        then set_authResult None (clearTimeout id w)
        else w
    | None => w
    end in
  match configuredHook hook_removeLogin (config w1) with
  | Some b => (hookOutcome b, emit EvHookRemoveLogin w1)
  | None => (Resolved tt, w1)
  end.

(** The world [logout()] leaves behind.  [if (this.config)] always holds:
    the constructor stores an object.  When [encodeURIComponent] throws,
    the call ends there, before [updateWindow]. *)
Definition logout (w : World) : World :=
  let w1 :=
    match tokenRefreshHandle w with
    | Some id =>
        if truthy_handle (Some id)
        then set_authResult None (clearTimeout id w)
        else w
    | None => w
    end in
  let w2 :=
    match hooks (config w1) with
    | Some h => if hook_logout h then emit EvHookLogout w1 else w1
    | None => w1
    end in
  match logoutUrl (config w2) with
  | Some url => updateWindow url w2
  | None => w2
  end.

(** Does [logout()] end by throwing (the [URIError] of
    [encodeURIComponent])? *)
Definition logoutThrows (w : World) : bool :=
  match logoutUrl (config w) with
  | Some _ => false
  | None => true
  end.

(** The widget options: the defaults, with [Object.assign] of
    [config.auth0LockOptions] over them. *)
Definition lockOptions (c : Config) : LockOptions :=
  let options := mkLockOptions (mkAuthOptions "id_token token" false) false in
  match auth0LockOptions c with
  | Some over =>
      mkLockOptions (default (auth options) (over_auth over))
                    (default (closable options) (over_closable over))
  | None => options
  end.

(** The rejection built when the provider's answer carries no token pair. *)
Definition noTokenAvailable (a : AuthResult) : JsError :=
  mkJsError "no_token_available" "Failed to get valid token." (error a).

(** The promise around one [webAuth.renewAuth] call, given its answer.
    An answer without [authResult] makes the callback throw on
    [authResult.error], a missing [idTokenPayload] makes the continuation
    throw, and a hook promise that does not resolve never reaches
    [resolve]: in all three cases the promise is never settled. *)
Definition renewAnswered (retries : nat) (r : RenewResponse) (w : World)
  : Outcome LoginInfo * World :=
  match r with
  | RenewError err => (Rejected err, log (MsgRenewFailed retries err) w)
  | RenewData None => (Pending, w)
  | RenewData (Some a) =>
      if truthy_string (accessToken a) && truthy_string (idToken a) then
        let '(refreshed, w1) := tokenRefreshed a w in
        match refreshed, idTokenPayload a with
        | Resolved _, Some payload =>
            (Resolved (mkLoginInfo (idToken a) (sub payload)), w1)
        | _, _ => (Pending, w1)
        end
      else (Rejected (noTokenAvailable a), w)
  end.

(** The retry policy of the [.catch] handler of [renewAuth]:
    [retries < 4 && error.authResultError === undefined]. *)
Definition isUndefined {A} (v : option A) : bool :=
  match v with
  | None => true
  | Some _ => false
  end.

Definition retryDelay : Z := 1000.

Definition shouldRetry (retries : nat) (e : JsError) : option Z :=
  if (retries <? 4)%nat && isUndefined (e_authResultError e)
  then Some retryDelay
  else None.

(** [renewAuth(retries)].  Each call asks the provider once and takes the
    next answer of the script. *)
Fixpoint renewAuth (script : list RenewResponse) (retries : nat) (w : World)
  : Outcome LoginInfo * list RenewResponse * World :=
  let w0 := emit EvRenewAuth w in
  match script with
  | [] => (Pending, [], w0)
  | r :: rest =>
      let '(res, w1) := renewAnswered retries r w0 in
      match res with
      | Rejected e =>
          match shouldRetry retries e with
          | Some ms =>
              renewAuth rest (retries + 1)%nat
                        (elapse ms (emit (EvRetryDelay ms) w1))
          | None => (Rejected e, rest, w1)
          end
      | _ => (res, rest, w1)
      end
  end.

(** The promise built around the lock widget (the executor of
    [new Promise] in the [.catch] handler of [ensureLoggedIn]), driven by
    the widget's events until it settles or the events run out.

    On ['authenticated'] the handler calls [this.renewAuth()] and goes on
    in its [.then] only; a rejected or unsettled renewal leaves the
    promise as it is and the widget open. *)
Fixpoint lockSession (events : list LockEvent) (o : Oracle) (w : World)
  : Outcome LoginInfo * Oracle * World :=
  match events with
  | [] => (Pending, mkOracle (renewals o) [] (userInfos o) (users o), w)
  | LockAuthenticated a :: events' =>
      let '(renewed, rs, w1) := renewAuth (renewals o) 0 w in
      match renewed with
      | Resolved _ =>
          let w2 := emit (EvLockGetUserInfo (accessToken a)) w1 in
          match userInfos o with
          | [] => lockSession events' (mkOracle rs events' [] (users o)) w2
          | UserInfoError e :: uis =>
              (Rejected e, mkOracle rs events' uis (users o),
               log (MsgError e) (emit EvLockHide w2))
          | UserInfoProfile s :: uis =>
              (Resolved (mkLoginInfo (idToken a) s),
               mkOracle rs events' uis (users o), emit EvLockHide w2)
          end
      | _ => lockSession events' (mkOracle rs events' (userInfos o) (users o)) w1
      end
  | LockAuthorizationError e :: events' =>
      (Rejected e, mkOracle (renewals o) events' (userInfos o) (users o),
       log (MsgError e) w)
  | LockHidden :: events' =>
      lockSession events' (mkOracle (renewals o) events' (userInfos o) (users o)) w
  end.

(** The tail of the chain:
    [.then(loginInfo => this.getDetailedProfile(...)).then(profile => this.profileRefreshed(profile))]. *)
Definition thenProfile (acquired : Outcome LoginInfo) (o : Oracle) (w : World)
  : Outcome unit * Oracle * World :=
  match acquired with
  | Resolved li =>
      let '(fetched, us, w1) := getDetailedProfile li (users o) w in
      let o1 := mkOracle (renewals o) (lockEvents o) (userInfos o) us in
      match fetched with
      | Resolved p => let '(r, w2) := profileRefreshed p w1 in (r, o1, w2)
      | Rejected e => (Rejected e, o1, w1)
      | Pending => (Pending, o1, w1)
      end
  | Rejected e => (Rejected e, o, w)
  | Pending => (Pending, o, w)
  end.

(** The [.catch] handler of [ensureLoggedIn]. *)
Definition renewFailed (configuration : Configuration) (e : JsError)
  (o : Oracle) (w : World) : Outcome LoginInfo * Oracle * World :=
  let w1 := snd (removeLogin w) in
  if negb (enableLockWidget configuration) then (Rejected e, o, w1)
  else
    let w2 := log MsgFallbackToWidget w1 in
    let w3 := emit (EvLockNew (lockOptions (config w2))) w2 in
    lockSession (lockEvents o) o (emit EvLockShow w3).

(** Does the guard at the head of [ensureLoggedIn] let the call through?
    The clock is read only when a token is stored. *)
Definition stillValid (w : World) : bool * World :=
  match getLatestAuthResult w with
  | Some latestAuthResult =>
      let '(ms, w1) := getRemainingMillisToTokenEpxiry latestAuthResult w in
      (0 <? ms, w1)
  | None => (false, w)
  end.

Definition ensureLoggedIn (configuration : Configuration) (o : Oracle) (w : World)
  : Outcome unit * Oracle * World :=
  let '(valid, w0) := stillValid w in
  if valid then (Resolved tt, o, w0)
  else
    let '(renewed, rs, w1) := renewAuth (renewals o) 0 w0 in
    let o1 := mkOracle rs (lockEvents o) (userInfos o) (users o) in
    match renewed with
    | Rejected e =>
        let '(acquired, o2, w2) := renewFailed configuration e o1 w1 in
        thenProfile acquired o2 w2
    | _ => thenProfile renewed o1 w1
    end.

(** The renewal timer [id] fires: the window drops it from its table and
    runs its callback.  [None] when no such timer is pending. *)
Definition fireTimer (id : Z) (o : Oracle) (w : World)
  : option (Outcome unit * Oracle * World) :=
  match timers w !! id with
  | Some t =>
      let w1 := set_timers (nextTimer w) (delete id (timers w)) w in
      match callback t with
      | CallEnsureLoggedIn b => Some (ensureLoggedIn (mkConfiguration b) o w1)
      end
  | None => None
  end.

(** ** Histories of an instance *)

(** What can happen to an instance: calls of its public methods, its timer
    firing, and time passing.  [OpTokenRefreshed] is also what a provider
    answer runs when it arrives after other calls have gone by. *)
Inductive Op :=
| OpEnsureLoggedIn (c : Configuration) (o : Oracle)
| OpRenewAuth (script : list RenewResponse) (retries : nat)
| OpTokenRefreshed (a : AuthResult)
| OpRemoveLogin
| OpLogout
| OpFireTimer (id : Z) (o : Oracle)
| OpElapse (ms : Z).

Definition perform (op : Op) (w : World) : World :=
  match op with
  | OpEnsureLoggedIn c o => snd (ensureLoggedIn c o w)
  | OpRenewAuth script retries => snd (renewAuth script retries w)
  | OpTokenRefreshed a => snd (tokenRefreshed a w)
  | OpRemoveLogin => snd (removeLogin w)
  | OpLogout => logout w
  | OpFireTimer id o =>
      match fireTimer id o w with
      | Some r => snd r
      | None => w
      end
  | OpElapse ms => elapse ms w
  end.

Definition run (ops : list Op) (w : World) : World :=
  fold_left (fun w op => perform op w) ops w.

(** The worlds an instance built by the constructor can be in. *)
Definition reachable (w : World) : Prop :=
  exists c t0 ds ops, w = run ops (constructor c t0 ds).

(** * Vocabulary of the properties *)

(** ** Steps that leave the session alone, and the session invariant *)

(** [quiet w w']: [w'] differs from [w] in the clock and the trace only. *)
Definition quiet (w w' : World) : Prop :=
  config w' = config w /\ tokenRefreshHandle w' = tokenRefreshHandle w
  /\ authResult w' = authResult w /\ nextTimer w' = nextTimer w
  /\ timers w' = timers w /\ location w' = location w.

(** What every world of a running instance satisfies: timer ids are
    positive and below the next id to hand out, a stored token comes with
    a handle, and the only timer that can be pending is the one the handle
    names. *)
Record coherent (w : World) : Prop := mkCoherent {
  coh_next : 0 < nextTimer w;
  coh_handle : forall id, tokenRefreshHandle w = Some id -> 0 < id < nextTimer w;
  coh_token : authResult w <> None -> tokenRefreshHandle w <> None;
  coh_timers : forall id t, timers w !! id = Some t -> tokenRefreshHandle w = Some id
}.

(** [sound w w']: going from [w] to [w'] keeps the invariant and never
    sets the handle back to [null]. *)
Definition sound (w w' : World) : Prop :=
  (coherent w -> coherent w')
  /\ (tokenRefreshHandle w <> None -> tokenRefreshHandle w' <> None).

(** ** What the clearing and the hooks leave in the trace *)

(** The events of cancelling the timer the handle names. *)
Definition cancelEvents (w : World) : list Event :=
  match tokenRefreshHandle w with
  | Some id => if truthy_handle (Some id) then [EvClearTimeout id] else []
  | None => []
  end.

Definition hookEvents (h : option HookBehaviour) (ev : Event) : list Event :=
  match h with
  | Some _ => [ev]
  | None => []
  end.

Definition hookResult (h : option HookBehaviour) : Outcome unit :=
  match h with
  | Some b => hookOutcome b
  | None => Resolved tt
  end.

(** The timer [tokenRefreshed] schedules for [a] in [w]. *)
Definition renewalTimer (a : AuthResult) (w : World) : Timer :=
  mkTimer (CallEnsureLoggedIn true) (fst (getRemainingMillisToTokenEpxiry a w)).

(** The token and the timer table after the handle-guarded clearing that
    [removeLogin] and [logout] share. *)
Definition clearedToken (w : World) : option AuthResult :=
  if truthy_handle (tokenRefreshHandle w) then None else authResult w.

Definition logoutHookEvents (c : Config) : list Event :=
  match hooks c with
  | Some h => if hook_logout h then [EvHookLogout] else []
  | None => []
  end.

Definition isLockEvent (ev : Event) : bool :=
  match ev with
  | EvLockNew _ | EvLockShow | EvLockHide | EvLockGetUserInfo _ => true
  | _ => false
  end.

(** The events of one failed renewal attempt. *)
Definition failedAttempt (c : Config) (retries : nat) (e : JsError) : list Event :=
  [EvRenewAuth; EvLog (logSink c) (MsgRenewFailed retries e)].

(** An answer without a token pair. *)
Definition tokenless (a : AuthResult) : Prop :=
  truthy_string (accessToken a) && truthy_string (idToken a) = false.

(** ** Sample data *)

Definition token90 : AuthResult :=
  mkAuthResult (Some "access") (Some "id") (Some (mkPayload "auth0|1")) 90 None.

(** A provider answer with neither tokens nor an [error] property. *)
Definition emptyAnswer : AuthResult := mkAuthResult None None None 0 None.

(** A provider answer that carries an [error] and no tokens. *)
Definition deniedAnswer : AuthResult :=
  mkAuthResult None None None 0 (Some (JsStr "login_required")).

(** A provider answer without tokens whose [error] property is [null]. *)
Definition nullErrorAnswer : AuthResult :=
  mkAuthResult None None None 0 (Some JsNull).

Definition timeoutError : JsError := mkJsError "timeout" "" None.

Definition networkError : JsError := mkJsError "network" "offline" None.

Definition freshWorld : World := constructor None 0 [].

(** The instance once [token90] has been installed at time 0. *)
Definition activeWorld : World := snd (tokenRefreshed token90 freshWorld).

(** A token that is expired the moment it is installed. *)
Definition token0 : AuthResult :=
  mkAuthResult (Some "access") (Some "id") (Some (mkPayload "auth0|1")) 0 None.

Definition expiredWorld : World := snd (tokenRefreshed token0 freshWorld).

Definition noAnswers : Oracle := mkOracle [] [] [] [].

(** ** Two claims as the specification states them *)

(** C3 as the claim has it: whatever the attempt number, an answer without
    a token pair makes [renewAuth] reject with the no-token-available
    error, no further answer of the provider being taken. *)
Definition no_token_never_retried : Prop :=
  forall (retries : nat) (a : AuthResult) (rest : list RenewResponse) (w : World),
    tokenless a ->
    fst (renewAuth (RenewData (Some a) :: rest) retries w)
    = (Rejected (noTokenAvailable a), rest).

(** C6 as the claim has it: four transient failures in a row, with the
    widget disabled, make [ensureLoggedIn] reject with the fourth error. *)
Definition four_failures_reject : Prop :=
  forall (w : World) (e1 e2 e3 e4 : JsError) (rest : list RenewResponse)
         (le : list LockEvent) (ui : list UserInfoResponse) (us : list GetUserResponse),
    fst (stillValid w) = false ->
    e_authResultError e1 = None -> e_authResultError e2 = None ->
    e_authResultError e3 = None -> e_authResultError e4 = None ->
    fst (fst (ensureLoggedIn (mkConfiguration false)
                (mkOracle (RenewError e1 :: RenewError e2 :: RenewError e3
                           :: RenewError e4 :: rest) le ui us) w))
    = Rejected e4.

(** ** Vocabulary of the further properties *)

Definition isRenewAuth (ev : Event) : bool :=
  match ev with
  | EvRenewAuth => true
  | _ => false
  end.

(** The events of the trace that [sel] picks, oldest first. *)
Definition selected (sel : Event -> bool) (w : World) : list Event :=
  List.filter sel (trace w).

(** How often the provider's silent renewal has been called so far. *)
Definition providerCalls (w : World) : nat := length (selected isRenewAuth w).

(** The code's transient errors: [error.authResultError === undefined]. *)
Definition transient (e : JsError) : Prop := e_authResultError e = None.

(** An answer that [renewAuth] accepts: both tokens are truthy. *)
Definition tokenPair (a : AuthResult) : Prop :=
  truthy_string (accessToken a) && truthy_string (idToken a) = true.

(** The token-refreshed hook, if any, returns a promise that resolves. *)
Definition tokenHookResolves (c : Config) : Prop :=
  hookResult (configuredHook hook_tokenRefreshed c) = Resolved tt.

(** The world after the failed attempts [retries], [retries + 1], ... with
    the errors [errs], each followed by the pause before the next attempt. *)
Fixpoint afterFailures (errs : list JsError) (retries : nat) (w : World) : World :=
  match errs with
  | [] => w
  | e :: errs' =>
      afterFailures errs' (retries + 1)
        (elapse retryDelay (emit (EvRetryDelay retryDelay)
           (log (MsgRenewFailed retries e) (emit EvRenewAuth w))))
  end.

(** Every pending timer runs [ensureLoggedIn({enableLockWidget: true})] and
    belongs to a stored token. *)
Definition tidy (w : World) : Prop :=
  forall id t, timers w !! id = Some t ->
               callback t = CallEnsureLoggedIn true /\ authResult w <> None.

Definition isLogoutOp (op : Op) : bool :=
  match op with
  | OpLogout => true
  | _ => false
  end.

(** The characters that can occur in the output of [encodeURIComponent]. *)
Definition uriSafe (c : ascii) : bool :=
  uriUnescaped c || Ascii.eqb c "%"%char.

Fixpoint stringForall (p : ascii -> bool) (s : string) : bool :=
  match s with
  | EmptyString => true
  | String c rest => p c && stringForall p rest
  end.

(** The world once [ensureLoggedIn] has got past its guard, asked the
    provider and run [tokenRefreshed] on the answer [a]. *)
Definition renewedWorld (a : AuthResult) (w : World) : World :=
  snd (tokenRefreshed a (emit EvRenewAuth (snd (stillValid w)))).

(** A configuration whose token-refreshed hook returns a promise that
    rejects. *)
Definition rejectingHookConfig : Config :=
  mkConfig (Some "tenant.auth0.com") (Some "abc123") None None None None
           (Some (mkHooks false (Some (HookRejects networkError)) None None false)).

(** ** Vocabulary of the URL properties *)

(** No surrogate half without its other half: the strings on which
    [encodeURIComponent] does not throw. *)
Fixpoint wellFormed (s : list Z) : bool :=
  match s with
  | [] => true
  | c :: rest =>
      if isLowSurrogate c then false
      else if isHighSurrogate c then
        match rest with
        | [] => false
        | k :: rest' => isLowSurrogate k && wellFormed rest'
        end
      else wellFormed rest
  end.

(** Code units are the numbers from 0 to 65535. *)
Definition codeUnits (s : list Z) : Prop := Forall (fun u => 0 <= u < 65536) s.

(** The UTF-8 octets of the code points of a well-formed string. *)
Fixpoint utf8OfUnits (s : list Z) : list Z :=
  match s with
  | [] => []
  | c :: rest =>
      if isHighSurrogate c then
        match rest with
        | [] => []
        | k :: rest' => utf8Octets (pairCodePoint c k) ++ utf8OfUnits rest'
        end
      else utf8Octets c ++ utf8OfUnits rest
  end.

Definition hexValue (c : ascii) : option Z :=
  let n := Z.of_nat (nat_of_ascii c) in
  if (48 <=? n) && (n <=? 57) then Some (n - 48)
  else if (65 <=? n) && (n <=? 70) then Some (n - 55)
  else if (97 <=? n) && (n <=? 102) then Some (n - 87)
  else None.

(** Percent-decoding of a URL component into octets: [%XX] is the octet
    with that hexadecimal value, any other character its own octet. *)
Fixpoint percentDecode (s : string) : option (list Z) :=
  match s with
  | EmptyString => Some []
  | String c rest =>
      if Ascii.eqb c "%" then
        match rest with
        | String h1 (String h2 rest') =>
            match hexValue h1, hexValue h2 with
            | Some a, Some b => option_map (cons (16 * a + b)) (percentDecode rest')
            | _, _ => None
            end
        | _ => None
        end
      else option_map (cons (Z.of_nat (nat_of_ascii c))) (percentDecode rest)
  end.

(** A configuration with a logout hook and a redirect URI that needs
    escaping: [https://app.example/apr], U+00E8, [s?x=1&y=], U+1F600. *)
Definition sampleLogoutConfig : Config :=
  mkConfig (Some "tenant.auth0.com") (Some "abc123") None None
    (Some (unitsOfString "https://app.example/apr" ++ [0xE8]
           ++ unitsOfString "s?x=1&y=" ++ [0xD83D; 0xDE00]))
    None (Some (mkHooks false None None None true)).

(** A configuration whose redirect URI ends in a surrogate half. *)
Definition loneSurrogateConfig : Config :=
  mkConfig (Some "tenant.auth0.com") (Some "abc123") None None
    (Some (unitsOfString "https://app.example/" ++ [0xD800]))
    None (Some (mkHooks false None None None true)).

(** An instance with [token90] installed under a given configuration. *)
Definition activeWith (c : Config) : World :=
  snd (tokenRefreshed token90 (constructor (Some c) 0 [])).

(** C7 as the claim has it: in every state [logout] navigates to the URL
    built from the configuration. *)
Definition logout_always_navigates : Prop :=
  forall w : World,
    reachable w ->
    exists returnTo : string,
      location (logout w)
      = Some ("https://" +:+ js_string (domain (config w))
              +:+ "/v2/logout?returnTo=" +:+ returnTo
              +:+ "&client_id=" +:+ js_string (clientId (config w))).

(** ** Vocabulary of the retry policy *)

(** After the answer [r] to attempt [retries], the provider is asked
    again. *)
Definition asksAgain (r : RenewResponse) (rest : list RenewResponse)
  (retries : nat) (w : World) : Prop :=
  (providerCalls w + 2 <= providerCalls (snd (renewAuth (r :: rest) retries w)))%nat.

(** The errors the specification classifies as transient: those that did
    not originate as the no-token-available rejection, that is, the ones
    the provider's callback reported. *)
Definition fromProvider (r : RenewResponse) : Prop := exists e, r = RenewError e.

(** C4 as the claim has it: a failed attempt is retried exactly when its
    number is below 4 and its error is one of the transient kind. *)
Definition retry_follows_claimed_classes : Prop :=
  forall (retries : nat) (r : RenewResponse) (rest : list RenewResponse)
         (w w1 : World) (e : JsError),
    renewAnswered retries r (emit EvRenewAuth w) = (Rejected e, w1) ->
    (asksAgain r rest retries w <-> (retries < 4)%nat /\ fromProvider r).

(** The worlds in which the helper's arithmetic on doubles is exact: a
    non-negative lifetime and clock, no reading before the previous one,
    and everything below 2^53. *)
Definition inExactRange (a : AuthResult) (w : World) : Prop :=
  0 <= expiresIn a /\ 0 <= now w /\ 0 <= drift w
  /\ expiresIn a * 1000 + now w + drift w <= 2 ^ 53.

(** * Properties *)

(** ** The expiry helper *)

Lemma remainingMillis_same_reading (a : AuthResult) (t : Z) :
  remainingMillis a t t = expiresIn a * 1000 / 3 * 2.
Proof.
  unfold remainingMillis. cbv zeta.
  replace (expiresIn a * 1000 + t - t) with (expiresIn a * 1000) by lia.
  reflexivity.
Qed.

Lemma remainingMillis_drift (a : AuthResult) (t d : Z) :
  remainingMillis a t (t + d) = (expiresIn a * 1000 - d) / 3 * 2.
Proof.
  unfold remainingMillis. cbv zeta.
  replace (expiresIn a * 1000 + t - (t + d)) with (expiresIn a * 1000 - d) by lia.
  reflexivity.
Qed.

Lemma remainingMillis_positive (a : AuthResult) (t d : Z) :
  d + 3 <= expiresIn a * 1000 -> 0 < remainingMillis a t (t + d).
Proof.
  intros Hd. rewrite remainingMillis_drift.
  assert (1 <= (expiresIn a * 1000 - d) / 3).
  { apply Z.div_le_lower_bound; lia. }
  lia.
Qed.

(** The helper reads the clock twice and touches nothing else. *)
Lemma getRemaining_value (a : AuthResult) (w : World) :
  fst (getRemainingMillisToTokenEpxiry a w) = remainingMillis a (now w) (now w + drift w).
Proof.
  unfold getRemainingMillisToTokenEpxiry, Date_now, drift.
  destruct (ticks w) as [|d ds] eqn:E; cbn.
  - rewrite E, Z.add_0_r. reflexivity.
  - destruct ds; reflexivity.
Qed.

(** ** Steps that leave the session alone *)

Lemma quiet_refl (w : World) : quiet w w.
Proof. repeat split. Qed.

Lemma quiet_trans (w1 w2 w3 : World) : quiet w1 w2 -> quiet w2 w3 -> quiet w1 w3.
Proof. unfold quiet. intros; destruct_and!; repeat split; congruence. Qed.

Lemma quiet_set_clock (t : Z) (ds : list Z) (w : World) : quiet w (set_clock t ds w).
Proof. repeat split. Qed.

Lemma quiet_emit (ev : Event) (w : World) : quiet w (emit ev w).
Proof. repeat split. Qed.

Lemma quiet_log (m : LogMessage) (w : World) : quiet w (log m w).
Proof. apply quiet_emit. Qed.

Lemma quiet_elapse (ms : Z) (w : World) : quiet w (elapse ms w).
Proof. apply quiet_set_clock. Qed.

Create HintDb session discriminated.
#[local] Hint Resolve quiet_refl quiet_set_clock quiet_emit quiet_log quiet_elapse
  : session.

(** Solves [quiet w (f1 (f2 (... w)))] for a stack of logging, event and
    clock steps. *)
Ltac quiet_step :=
  first [apply quiet_emit | apply quiet_log | apply quiet_elapse | apply quiet_set_clock].

Ltac quiet_chain :=
  first
    [ solve [auto with session]
    | eapply quiet_trans; [| quiet_step]; quiet_chain ].

Lemma quiet_Date_now (w : World) : quiet w (snd (Date_now w)).
Proof. unfold Date_now. destruct (ticks w); [apply quiet_refl | apply quiet_set_clock]. Qed.

Lemma trace_Date_now (w : World) : trace (snd (Date_now w)) = trace w.
Proof. unfold Date_now. destruct (ticks w); reflexivity. Qed.

Lemma quiet_getRemaining (a : AuthResult) (w : World) :
  quiet w (snd (getRemainingMillisToTokenEpxiry a w)).
Proof.
  unfold getRemainingMillisToTokenEpxiry.
  pose proof (quiet_Date_now w) as H1.
  destruct (Date_now w) as [t1 w1].
  pose proof (quiet_Date_now w1) as H2.
  destruct (Date_now w1) as [t2 w2]. cbn in *.
  eapply quiet_trans; eassumption.
Qed.

Lemma trace_getRemaining (a : AuthResult) (w : World) :
  trace (snd (getRemainingMillisToTokenEpxiry a w)) = trace w.
Proof.
  unfold getRemainingMillisToTokenEpxiry.
  pose proof (trace_Date_now w) as H1.
  destruct (Date_now w) as [t1 w1].
  pose proof (trace_Date_now w1) as H2.
  destruct (Date_now w1) as [t2 w2]. cbn in *. congruence.
Qed.

Lemma stillValid_quiet (w : World) : quiet w (snd (stillValid w)).
Proof.
  unfold stillValid, getLatestAuthResult.
  destruct (authResult w) as [a|]; [|apply quiet_refl].
  pose proof (quiet_getRemaining a w) as H.
  destruct (getRemainingMillisToTokenEpxiry a w). exact H.
Qed.

Lemma stillValid_trace (w : World) : trace (snd (stillValid w)) = trace w.
Proof.
  unfold stillValid, getLatestAuthResult.
  destruct (authResult w) as [a|]; [|reflexivity].
  pose proof (trace_getRemaining a w) as H.
  destruct (getRemainingMillisToTokenEpxiry a w). exact H.
Qed.

Lemma Date_now_spec (w : World) :
  exists t ds, Date_now w = (now w, set_clock t ds w)
               /\ t = now w + drift w.
Proof.
  unfold Date_now, drift. destruct w as [c h a n tk nt ts l tr]; cbn.
  destruct tk as [|d ds].
  - exists n, []. split; [reflexivity | lia].
  - exists (n + d), ds. split; reflexivity.
Qed.

Lemma getRemaining_spec (a : AuthResult) (w : World) :
  exists t ds,
    getRemainingMillisToTokenEpxiry a w
    = (remainingMillis a (now w) (now w + drift w), set_clock t ds w).
Proof.
  unfold getRemainingMillisToTokenEpxiry.
  destruct (Date_now_spec w) as (t1 & ds1 & -> & ->).
  destruct (Date_now_spec (set_clock (now w + drift w) ds1 w)) as (t2 & ds2 & -> & _).
  exists t2, ds2. reflexivity.
Qed.

(** ** The session invariant *)

Lemma sound_refl (w : World) : sound w w.
Proof. split; auto. Qed.

Lemma sound_trans (w1 w2 w3 : World) : sound w1 w2 -> sound w2 w3 -> sound w1 w3.
Proof. unfold sound. intros [] []. split; auto. Qed.

Lemma quiet_sound (w w' : World) : quiet w w' -> sound w w'.
Proof.
  intros (Hc & Hh & Ha & Hn & Ht & Hl). split.
  - intros [H1 H2 H3 H4]. split; rewrite ?Hh, ?Ha, ?Hn, ?Ht; assumption.
  - rewrite Hh. auto.
Qed.

Lemma coherent_constructor (c : option Config) (t0 : Z) (ds : list Z) :
  coherent (constructor c t0 ds).
Proof.
  split; cbn; try done.
Qed.

Lemma coherent_truthy (w : World) (id : Z) :
  coherent w -> tokenRefreshHandle w = Some id -> truthy_handle (Some id) = true.
Proof.
  intros Hc Hh. apply (coh_handle _ Hc) in Hh. cbn.
  destruct (Z.eqb_spec id 0); [lia | reflexivity].
Qed.

(** In a coherent world, cancelling the handle's timer empties the table. *)
Lemma coherent_delete_handle (w : World) (id : Z) :
  coherent w -> tokenRefreshHandle w = Some id -> delete id (timers w) = ∅.
Proof.
  intros Hc Hh. apply map_empty. intros k.
  destruct (decide (id = k)) as [->|Hne].
  - apply lookup_delete_eq.
  - rewrite lookup_delete_ne by done.
    destruct (timers w !! k) as [t|] eqn:E; [|done].
    apply (coh_timers _ Hc) in E. congruence.
Qed.

Lemma coherent_no_handle (w : World) :
  coherent w -> tokenRefreshHandle w = None -> timers w = ∅.
Proof.
  intros Hc Hh. apply map_empty. intros k.
  destruct (timers w !! k) as [t|] eqn:E; [|done].
  apply (coh_timers _ Hc) in E. congruence.
Qed.



(** ** [tokenRefreshed], [removeLogin], [logout] *)

Lemma clearRefreshTimer_fields (w : World) :
  let w' := clearRefreshTimer w in
  config w' = config w /\ tokenRefreshHandle w' = tokenRefreshHandle w
  /\ authResult w' = authResult w /\ now w' = now w /\ ticks w' = ticks w
  /\ nextTimer w' = nextTimer w /\ location w' = location w
  /\ trace w' = trace w ++ cancelEvents w
  /\ timers w' = match tokenRefreshHandle w with
                 | Some id => if truthy_handle (Some id)
                              then delete id (timers w) else timers w
                 | None => timers w
                 end.
Proof.
  unfold clearRefreshTimer, cancelEvents.
  destruct (tokenRefreshHandle w) as [id|] eqn:E; cbn.
  - destruct (id =? 0); cbn; rewrite ?app_nil_r; repeat split; auto.
  - rewrite app_nil_r. repeat split; auto.
Qed.

Lemma tokenRefreshed_fields (a : AuthResult) (w : World) :
  let w' := snd (tokenRefreshed a w) in
  config w' = config w
  /\ authResult w' = Some a
  /\ tokenRefreshHandle w' = Some (nextTimer w)
  /\ nextTimer w' = nextTimer w + 1
  /\ timers w' = <[nextTimer w := renewalTimer a w]> (timers (clearRefreshTimer w))
  /\ location w' = location w
  /\ trace w' = trace w ++ cancelEvents w
                ++ [EvSetTimeout (nextTimer w) (renewalTimer a w)]
                ++ hookEvents (configuredHook hook_tokenRefreshed (config w))
                              (EvHookTokenRefreshed a)
  /\ fst (tokenRefreshed a w)
     = hookResult (configuredHook hook_tokenRefreshed (config w)).
Proof.
  unfold tokenRefreshed, renewalTimer. rewrite getRemaining_value.
  set (w1 := set_authResult (Some a) w).
  destruct (clearRefreshTimer_fields w1) as (Hc & Hh & Ha & Hn & Htk & Hnt & Hl & Htr & Hts).
  destruct (getRemaining_spec a (clearRefreshTimer w1)) as (t & ds & ->).
  cbn zeta in *. rewrite Hn. unfold drift. rewrite Htk. fold (drift w1).
  unfold setTimeout. cbn. rewrite Hc, Hnt.
  change (config w1) with (config w). change (nextTimer w1) with (nextTimer w).
  change (drift w1) with (drift w).
  destruct (configuredHook hook_tokenRefreshed (config w)) as [b|]; cbn;
    rewrite Hl, Htr, ?app_nil_r, <- ?app_assoc; repeat split; auto;
    destruct (clearRefreshTimer_fields w) as (_ & _ & _ & _ & _ & _ & _ & _ & ->);
    rewrite Hts; reflexivity.
Qed.

Lemma coherent_cleared (w : World) :
  coherent w -> timers (clearRefreshTimer w) = ∅.
Proof.
  intros Hc.
  destruct (clearRefreshTimer_fields w) as (_ & _ & _ & _ & _ & _ & _ & _ & ->).
  destruct (tokenRefreshHandle w) as [id|] eqn:Hh.
  - rewrite (coherent_truthy w id Hc Hh). apply (coherent_delete_handle w id Hc Hh).
  - apply (coherent_no_handle w Hc Hh).
Qed.

Lemma coherent_cancelEvents (w : World) :
  coherent w ->
  cancelEvents w = match tokenRefreshHandle w with
                   | Some id => [EvClearTimeout id]
                   | None => []
                   end.
Proof.
  intros Hc. unfold cancelEvents.
  destruct (tokenRefreshHandle w) as [id|] eqn:Hh; [|reflexivity].
  rewrite (coherent_truthy w id Hc Hh). reflexivity.
Qed.

Lemma sound_tokenRefreshed (a : AuthResult) (w : World) :
  sound w (snd (tokenRefreshed a w)).
Proof.
  destruct (tokenRefreshed_fields a w) as (Hc & Ha & Hh & Hn & Ht & _).
  split.
  - intros Hcoh. split; rewrite ?Hh, ?Hn, ?Ha, ?Ht.
    + pose proof (coh_next _ Hcoh). lia.
    + intros id [= <-]. pose proof (coh_next _ Hcoh). lia.
    + done.
    + intros id t. rewrite (coherent_cleared w Hcoh), lookup_insert.
      case_decide; [congruence | rewrite lookup_empty; done].
  - rewrite Hh. done.
Qed.

Lemma removeLogin_fields (w : World) :
  let w' := snd (removeLogin w) in
  config w' = config w
  /\ authResult w' = clearedToken w
  /\ tokenRefreshHandle w' = tokenRefreshHandle w
  /\ nextTimer w' = nextTimer w
  /\ timers w' = timers (clearRefreshTimer w)
  /\ location w' = location w
  /\ trace w' = trace w ++ cancelEvents w
                ++ hookEvents (configuredHook hook_removeLogin (config w))
                              EvHookRemoveLogin
  /\ fst (removeLogin w) = hookResult (configuredHook hook_removeLogin (config w)).
Proof.
  unfold removeLogin, clearedToken, clearRefreshTimer, cancelEvents.
  destruct (tokenRefreshHandle w) as [id|] eqn:Hh.
  - destruct (truthy_handle (Some id)) eqn:Ht; cbn -[truthy_handle];
      destruct (configuredHook hook_removeLogin (config w)) as [b|];
      cbn -[truthy_handle]; rewrite ?Hh, ?Ht, ?app_nil_r, <- ?app_assoc;
      repeat split; auto.
  - destruct (configuredHook hook_removeLogin (config w)) as [b|];
      cbn; rewrite ?Hh, ?app_nil_r; repeat split; auto.
Qed.

Lemma logout_fields (w : World) :
  let w' := logout w in
  config w' = config w
  /\ authResult w' = clearedToken w
  /\ tokenRefreshHandle w' = tokenRefreshHandle w
  /\ nextTimer w' = nextTimer w
  /\ timers w' = timers (clearRefreshTimer w)
  /\ location w' = match logoutUrl (config w) with
                   | Some url => Some url
                   | None => location w
                   end
  /\ trace w' = trace w ++ cancelEvents w ++ logoutHookEvents (config w)
                ++ match logoutUrl (config w) with
                   | Some url => [EvUpdateWindow url]
                   | None => []
                   end.
Proof.
  unfold logout, clearedToken, clearRefreshTimer, cancelEvents, logoutHookEvents.
  destruct (tokenRefreshHandle w) as [id|] eqn:Hh.
  - destruct (truthy_handle (Some id)) eqn:Ht; cbn -[truthy_handle logoutUrl];
      destruct (hooks (config w)) as [h|]; cbn -[truthy_handle logoutUrl];
      try destruct (hook_logout h); cbn -[truthy_handle logoutUrl];
      destruct (logoutUrl (config w)) as [url|]; cbn -[truthy_handle];
      rewrite ?Hh, ?Ht, ?app_nil_r, <- ?app_assoc; repeat split; auto.
  - destruct (hooks (config w)) as [h|]; cbn -[logoutUrl];
      try destruct (hook_logout h); cbn -[logoutUrl];
      destruct (logoutUrl (config w)) as [url|]; cbn;
      rewrite ?Hh, ?app_nil_r, <- ?app_assoc; repeat split; auto.
Qed.

(** Clearing keeps the handle and can only drop the token and the timer. *)
Lemma sound_cleared (w w' : World) :
  authResult w' = clearedToken w ->
  tokenRefreshHandle w' = tokenRefreshHandle w ->
  nextTimer w' = nextTimer w ->
  timers w' = timers (clearRefreshTimer w) ->
  sound w w'.
Proof.
  intros Ha Hh Hn Ht. split.
  - intros Hc. split; rewrite ?Hh, ?Hn, ?Ha, ?Ht.
    + apply (coh_next _ Hc).
    + apply (coh_handle _ Hc).
    + unfold clearedToken. destruct (truthy_handle (tokenRefreshHandle w)); [done|].
      apply (coh_token _ Hc).
    + intros id t. rewrite (coherent_cleared w Hc), lookup_empty. done.
  - rewrite Hh. auto.
Qed.

(** In a coherent world the handle-guarded clearing does drop the token. *)
Lemma coherent_clearedToken (w : World) : coherent w -> clearedToken w = None.
Proof.
  intros Hc. unfold clearedToken.
  destruct (tokenRefreshHandle w) as [id|] eqn:Hid.
  - rewrite (coherent_truthy w id Hc Hid). reflexivity.
  - cbn. destruct (authResult w) as [a|] eqn:Hau; [|reflexivity].
    exfalso. apply (coh_token _ Hc); [rewrite Hau; done | exact Hid].
Qed.

Lemma sound_removeLogin (w : World) : sound w (snd (removeLogin w)).
Proof.
  destruct (removeLogin_fields w) as (_ & Ha & Hh & Hn & Ht & _).
  apply sound_cleared; assumption.
Qed.

Lemma sound_logout (w : World) : sound w (logout w).
Proof.
  destruct (logout_fields w) as (_ & Ha & Hh & Hn & Ht & _).
  apply sound_cleared; assumption.
Qed.

(** ** Renewal, fallback and whole histories keep the invariant *)

Lemma sound_renewAnswered (retries : nat) (r : RenewResponse) (w : World) :
  sound w (snd (renewAnswered retries r w)).
Proof.
  unfold renewAnswered. destruct r as [err|[a|]]; cbn [snd].
  - apply quiet_sound, quiet_log.
  - destruct (truthy_string (accessToken a) && truthy_string (idToken a)).
    + pose proof (sound_tokenRefreshed a w) as H.
      destruct (tokenRefreshed a w) as [refreshed w1].
      destruct refreshed, (idTokenPayload a); exact H.
    + apply sound_refl.
  - apply sound_refl.
Qed.

Lemma sound_renewAuth (script : list RenewResponse) :
  forall (retries : nat) (w : World), sound w (snd (renewAuth script retries w)).
Proof.
  induction script as [|r rest IH]; intros retries w; cbn [renewAuth].
  - apply quiet_sound, quiet_emit.
  - pose proof (sound_renewAnswered retries r (emit EvRenewAuth w)) as H.
    destruct (renewAnswered retries r (emit EvRenewAuth w)) as [res w1].
    cbn [snd] in H.
    assert (sound w w1) as Hw1
      by (eapply sound_trans; [apply quiet_sound, quiet_emit | exact H]).
    destruct res as [li|e|]; [exact Hw1| |exact Hw1].
    destruct (shouldRetry retries e) as [ms|]; [|exact Hw1].
    eapply sound_trans; [exact Hw1|].
    eapply sound_trans; [|apply IH].
    apply quiet_sound. quiet_chain.
Qed.

Lemma sound_lockSession (events : list LockEvent) :
  forall (o : Oracle) (w : World), sound w (snd (lockSession events o w)).
Proof.
  induction events as [|ev events IH]; intros o w; cbn [lockSession].
  - apply sound_refl.
  - destruct ev as [a|e|].
    + pose proof (sound_renewAuth (renewals o) 0%nat w) as H.
      destruct (renewAuth (renewals o) 0 w) as [[renewed rs] w1]. cbn [snd] in H.
      destruct renewed as [li|e|].
      * destruct (userInfos o) as [|[e|s] uis].
        -- eapply sound_trans; [exact H|].
           eapply sound_trans; [apply quiet_sound, quiet_emit | apply IH].
        -- eapply sound_trans; [exact H|]. apply quiet_sound. quiet_chain.
        -- eapply sound_trans; [exact H|]. apply quiet_sound. quiet_chain.
      * eapply sound_trans; [exact H | apply IH].
      * eapply sound_trans; [exact H | apply IH].
    + apply quiet_sound, quiet_log.
    + apply IH.
Qed.

Lemma quiet_profileRefreshed (p : Profile) (w : World) :
  quiet w (snd (profileRefreshed p w)).
Proof.
  unfold profileRefreshed.
  destruct (configuredHook hook_profileRefreshed (config w));
    [apply quiet_emit | apply quiet_refl].
Qed.

Lemma quiet_thenProfile (acquired : Outcome LoginInfo) (o : Oracle) (w : World) :
  quiet w (snd (thenProfile acquired o w)).
Proof.
  unfold thenProfile, getDetailedProfile.
  destruct acquired as [li|e|]; try apply quiet_refl.
  destruct (users o) as [|[e|p] us]; cbn [snd]; try apply quiet_emit.
  pose proof (quiet_profileRefreshed p
    (emit (EvGetUser (li_idToken li) (li_sub li)) w)) as H.
  destruct (profileRefreshed _ _) as [r w2]. cbn [snd] in *.
  eapply quiet_trans; [apply quiet_emit | exact H].
Qed.

Lemma sound_renewFailed (c : Configuration) (e : JsError) (o : Oracle) (w : World) :
  sound w (snd (renewFailed c e o w)).
Proof.
  unfold renewFailed.
  destruct (negb (enableLockWidget c)); cbn [snd].
  - apply sound_removeLogin.
  - eapply sound_trans; [apply sound_removeLogin|].
    eapply sound_trans; [|apply sound_lockSession].
    apply quiet_sound. quiet_chain.
Qed.

Lemma sound_ensureLoggedIn (c : Configuration) (o : Oracle) (w : World) :
  sound w (snd (ensureLoggedIn c o w)).
Proof.
  unfold ensureLoggedIn.
  pose proof (stillValid_quiet w) as Hv.
  destruct (stillValid w) as [valid w0]. cbn [snd] in Hv.
  apply quiet_sound in Hv.
  destruct valid; [exact Hv|].
  pose proof (sound_renewAuth (renewals o) 0%nat w0) as Hr.
  destruct (renewAuth (renewals o) 0 w0) as [[renewed rs] w1]. cbn [snd] in Hr.
  assert (sound w w1) as Hw1 by (eapply sound_trans; eassumption).
  destruct renewed as [li|e|].
  - eapply sound_trans; [exact Hw1 | apply quiet_sound, quiet_thenProfile].
  - pose proof (sound_renewFailed c e
      (mkOracle rs (lockEvents o) (userInfos o) (users o)) w1) as Hf.
    destruct (renewFailed _ _ _ _) as [[acquired o2] w2]. cbn [snd] in Hf.
    eapply sound_trans; [exact Hw1|].
    eapply sound_trans; [exact Hf | apply quiet_sound, quiet_thenProfile].
  - eapply sound_trans; [exact Hw1 | apply quiet_sound, quiet_thenProfile].
Qed.

(** A timer that fires leaves the table; the handle keeps its id. *)
Lemma sound_timer_dropped (id : Z) (w : World) :
  sound w (set_timers (nextTimer w) (delete id (timers w)) w).
Proof.
  split; [|auto].
  intros [H1 H2 H3 H4]. split; cbn; try assumption.
  intros k t. rewrite lookup_delete. case_decide; [done | apply H4].
Qed.

Lemma sound_perform (op : Op) (w : World) : sound w (perform op w).
Proof.
  destruct op as [c o|script retries|a| | |id o|ms]; cbn [perform].
  - apply sound_ensureLoggedIn.
  - apply sound_renewAuth.
  - apply sound_tokenRefreshed.
  - apply sound_removeLogin.
  - apply sound_logout.
  - unfold fireTimer. destruct (timers w !! id) as [t|]; [|apply sound_refl].
    destruct (callback t) as [b]. cbn [snd].
    eapply sound_trans; [apply sound_timer_dropped | apply sound_ensureLoggedIn].
  - apply quiet_sound, quiet_elapse.
Qed.

Lemma sound_run (ops : list Op) : forall w : World, sound w (run ops w).
Proof.
  unfold run. induction ops as [|op ops IH]; intros w; cbn [fold_left].
  - apply sound_refl.
  - eapply sound_trans; [apply sound_perform | apply IH].
Qed.

Lemma reachable_coherent (w : World) : reachable w -> coherent w.
Proof.
  intros (c & t0 & ds & ops & ->).
  apply (sound_run ops), coherent_constructor.
Qed.

(** ** The guard of [ensureLoggedIn] *)

Lemma stillValid_token (w : World) (tok : AuthResult) :
  authResult w = Some tok ->
  stillValid w = (0 <? fst (getRemainingMillisToTokenEpxiry tok w),
                  snd (getRemainingMillisToTokenEpxiry tok w)).
Proof.
  intros H. unfold stillValid, getLatestAuthResult. rewrite H.
  destruct (getRemainingMillisToTokenEpxiry tok w). reflexivity.
Qed.

Lemma ensureLoggedIn_valid (c : Configuration) (o : Oracle) (w : World) (tok : AuthResult) :
  authResult w = Some tok ->
  0 < fst (getRemainingMillisToTokenEpxiry tok w) ->
  ensureLoggedIn c o w = (Resolved tt, o, snd (getRemainingMillisToTokenEpxiry tok w)).
Proof.
  intros Ha Hpos. unfold ensureLoggedIn. rewrite (stillValid_token w tok Ha).
  apply Z.ltb_lt in Hpos. rewrite Hpos. reflexivity.
Qed.

(** ** The retry loop on a rejected attempt *)

Lemma renewAuth_rejected (retries : nat) (r : RenewResponse)
      (rest : list RenewResponse) (w w1 : World) (e : JsError) :
  renewAnswered retries r (emit EvRenewAuth w) = (Rejected e, w1) ->
  renewAuth (r :: rest) retries w
  = match shouldRetry retries e with
    | Some ms => renewAuth rest (retries + 1) (elapse ms (emit (EvRetryDelay ms) w1))
    | None => (Rejected e, rest, w1)
    end.
Proof. intros H. cbn [renewAuth]. rewrite H. reflexivity. Qed.

Lemma renewAuth_error (retries : nat) (e : JsError)
      (rest : list RenewResponse) (w : World) :
  renewAuth (RenewError e :: rest) retries w
  = let w1 := log (MsgRenewFailed retries e) (emit EvRenewAuth w) in
    match shouldRetry retries e with
    | Some ms => renewAuth rest (retries + 1) (elapse ms (emit (EvRetryDelay ms) w1))
    | None => (Rejected e, rest, w1)
    end.
Proof. reflexivity. Qed.

Lemma shouldRetry_transient (retries : nat) (e : JsError) :
  (retries < 4)%nat -> e_authResultError e = None ->
  shouldRetry retries e = Some 1000.
Proof.
  intros Hn He. unfold shouldRetry. rewrite He.
  apply Nat.ltb_lt in Hn. rewrite Hn. reflexivity.
Qed.

Lemma shouldRetry_exhausted (retries : nat) (e : JsError) :
  (4 <= retries)%nat -> shouldRetry retries e = None.
Proof.
  intros Hn. unfold shouldRetry.
  apply Nat.ltb_ge in Hn. rewrite Hn. reflexivity.
Qed.

Lemma shouldRetry_permanent (retries : nat) (e : JsError) :
  e_authResultError e <> None -> shouldRetry retries e = None.
Proof.
  intros He. unfold shouldRetry.
  destruct (e_authResultError e); [|done].
  rewrite andb_false_r. reflexivity.
Qed.

(** ** The claims about the expiry helper and the guard *)

(** C1 (the code departs from the claim).  The claim: the helper is
    positive strictly before two thirds of the lifetime have elapsed since
    the token was issued and non-positive from then on.  The code: for the
    90-second token installed at time 0, whatever time [elapsed] has gone
    by since, the helper answers 60000 and [ensureLoggedIn] resolves
    without asking the provider; so also at [elapsed = 60000] and at
    [elapsed = 90000], where the claim wants a non-positive value. *)
Theorem C1_remaining_ignores_issue_time :
  forall elapsed : Z,
    now (elapse elapsed activeWorld) = elapsed
    /\ fst (getRemainingMillisToTokenEpxiry token90 (elapse elapsed activeWorld)) = 60000
    /\ fst (ensureLoggedIn (mkConfiguration true) noAnswers (elapse elapsed activeWorld))
       = (Resolved tt, noAnswers).
Proof.
  intros elapsed.
  assert (fst (getRemainingMillisToTokenEpxiry token90 (elapse elapsed activeWorld)) = 60000)
    as Hms.
  { rewrite getRemaining_value. cbn [drift elapse ticks set_clock activeWorld].
    change (drift (elapse elapsed activeWorld)) with 0.
    rewrite Z.add_0_r. apply remainingMillis_same_reading. }
  split; [reflexivity|]. split; [exact Hms|].
  rewrite (ensureLoggedIn_valid _ _ _ token90); [reflexivity | reflexivity | lia].
Qed.

(** C2.  A stored token with [expiresIn > 0] is valid for ever: however
    much time [ms] has gone by, the helper is positive (two thirds of
    [expiresIn * 1000], rounded, when the clock does not move between its
    two readings), so [ensureLoggedIn] resolves at once with the oracle
    untouched and nothing added to the trace, and so does the call made
    by the renewal timer when it fires.  Between the two clock readings
    of one call the clock may move by [drift], up to 997 ms. *)
Theorem C2_stored_token_never_expires :
  forall (w : World) (tok : AuthResult) (ms : Z) (c : Configuration) (o : Oracle),
    authResult w = Some tok ->
    0 < expiresIn tok ->
    drift w <= 997 ->
    let later := elapse ms w in
    0 < fst (getRemainingMillisToTokenEpxiry tok later)
    /\ (drift w = 0 ->
        fst (getRemainingMillisToTokenEpxiry tok later) = expiresIn tok * 1000 / 3 * 2)
    /\ (exists w', ensureLoggedIn c o later = (Resolved tt, o, w')
                   /\ quiet later w' /\ trace w' = trace later)
    /\ (forall id t, timers later !! id = Some t ->
        exists w', fireTimer id o later = Some (Resolved tt, o, w')
                   /\ trace w' = trace later /\ authResult w' = Some tok).
Proof.
  intros w tok ms c o Ha Hexp Hdrift later.
  assert (forall v, now v = now later -> drift v = drift w ->
                    0 < fst (getRemainingMillisToTokenEpxiry tok v)) as Hpos.
  { intros v _ Hd. rewrite getRemaining_value, Hd.
    apply remainingMillis_positive. lia. }
  split; [apply Hpos; reflexivity|]. split; [|split].
  - intros H0. rewrite getRemaining_value.
    change (drift later) with (drift w). rewrite H0, Z.add_0_r.
    apply remainingMillis_same_reading.
  - exists (snd (getRemainingMillisToTokenEpxiry tok later)).
    split; [|split].
    + apply ensureLoggedIn_valid; [exact Ha | apply Hpos; reflexivity].
    + apply quiet_getRemaining.
    + apply trace_getRemaining.
  - intros id t Hid. unfold fireTimer. rewrite Hid.
    destruct (callback t) as [b].
    set (w1 := set_timers (nextTimer later) (delete id (timers later)) later).
    exists (snd (getRemainingMillisToTokenEpxiry tok w1)).
    split; [|split].
    + f_equal. apply ensureLoggedIn_valid; [exact Ha | apply Hpos; reflexivity].
    + rewrite trace_getRemaining. reflexivity.
    + destruct (quiet_getRemaining tok w1) as (_ & _ & -> & _). exact Ha.
Qed.

Lemma C2_stored_token_never_expires_witness :
  0 < fst (getRemainingMillisToTokenEpxiry token90 (elapse 3600000 activeWorld))
  /\ (drift activeWorld = 0 ->
      fst (getRemainingMillisToTokenEpxiry token90 (elapse 3600000 activeWorld))
      = expiresIn token90 * 1000 / 3 * 2)
  /\ (exists w', ensureLoggedIn (mkConfiguration true) noAnswers (elapse 3600000 activeWorld)
                 = (Resolved tt, noAnswers, w')
                 /\ quiet (elapse 3600000 activeWorld) w'
                 /\ trace w' = trace (elapse 3600000 activeWorld))
  /\ (forall id t, timers (elapse 3600000 activeWorld) !! id = Some t ->
      exists w', fireTimer id noAnswers (elapse 3600000 activeWorld)
                 = Some (Resolved tt, noAnswers, w')
                 /\ trace w' = trace (elapse 3600000 activeWorld)
                 /\ authResult w' = Some token90).
Proof.
  apply (C2_stored_token_never_expires activeWorld token90 3600000
           (mkConfiguration true) noAnswers).
  - reflexivity.
  - reflexivity.
  - vm_compute. discriminate.
Defined.

(** C9.  With a token stored whose remaining validity is positive,
    [ensureLoggedIn] resolves at once and has no effect: no collaborator
    is asked (the oracle comes back untouched), nothing is added to the
    trace (no renewal, no widget, no profile fetch, no hook), and the
    stored token, the timer handle, the timer table, the configuration
    and the window location are as before. *)
Theorem C9_valid_token_resolves_without_effects :
  forall (w : World) (tok : AuthResult) (c : Configuration) (o : Oracle),
    authResult w = Some tok ->
    0 < fst (getRemainingMillisToTokenEpxiry tok w) ->
    exists w',
      ensureLoggedIn c o w = (Resolved tt, o, w')
      /\ trace w' = trace w
      /\ authResult w' = authResult w
      /\ tokenRefreshHandle w' = tokenRefreshHandle w
      /\ timers w' = timers w
      /\ nextTimer w' = nextTimer w
      /\ config w' = config w
      /\ location w' = location w.
Proof.
  intros w tok c o Ha Hpos.
  exists (snd (getRemainingMillisToTokenEpxiry tok w)).
  destruct (quiet_getRemaining tok w) as (Hc & Hh & Hau & Hn & Ht & Hl).
  split; [apply ensureLoggedIn_valid; assumption|].
  split; [apply trace_getRemaining|]. tauto.
Qed.

Lemma C9_valid_token_resolves_without_effects_witness :
  exists w',
    ensureLoggedIn (mkConfiguration false) noAnswers activeWorld
    = (Resolved tt, noAnswers, w')
    /\ trace w' = trace activeWorld
    /\ authResult w' = authResult activeWorld
    /\ tokenRefreshHandle w' = tokenRefreshHandle activeWorld
    /\ timers w' = timers activeWorld
    /\ nextTimer w' = nextTimer activeWorld
    /\ config w' = config activeWorld
    /\ location w' = location activeWorld.
Proof.
  apply (C9_valid_token_resolves_without_effects activeWorld token90).
  - reflexivity.
  - vm_compute. reflexivity.
Defined.

(** ** The claims about the retry loop *)

(** C3 (counterexample).  An answer that has neither tokens nor an [error]
    property yields a no-token-available error whose [authResultError] is
    undefined; at attempt 0 the loop waits and asks the provider again. *)
Lemma C3_no_token_without_error_is_retried : ~ no_token_never_retried.
Proof.
  intros H.
  specialize (H 0%nat emptyAnswer [RenewData (Some token90)] freshWorld eq_refl).
  vm_compute in H. discriminate H.
Qed.

(** ** Exhausted retries with the lock widget disabled *)

(** C6 (counterexample).  After four transient failures the attempt number
    is 3, which the policy still retries: a fifth attempt is made, and
    when it succeeds [ensureLoggedIn] resolves. *)
Lemma C6_fifth_attempt_is_made : ~ four_failures_reject.
Proof.
  intros H.
  specialize (H freshWorld timeoutError timeoutError timeoutError timeoutError
                [RenewData (Some token90)] [] [] [GetUserProfile "profile"]
                eq_refl eq_refl eq_refl eq_refl eq_refl).
  vm_compute in H. discriminate H.
Qed.

(** C6 (amended).  When the guard lets the call through, the widget is
    disabled and silent renewal fails five times in a row (the first
    attempt and four retries, the first four errors transient), then
    [ensureLoggedIn] rejects with the fifth error; it has asked the
    provider five times with a 1000 ms pause in between, has cancelled the
    renewal timer and cleared the stored token, and has never touched the
    lock widget. *)
Theorem C6_five_failures_reject :
  forall (w : World) (e1 e2 e3 e4 e5 : JsError) (rest : list RenewResponse)
         (le : list LockEvent) (ui : list UserInfoResponse) (us : list GetUserResponse),
    reachable w ->
    fst (stillValid w) = false ->
    e_authResultError e1 = None -> e_authResultError e2 = None ->
    e_authResultError e3 = None -> e_authResultError e4 = None ->
    exists (w' : World) (evs : list Event),
      ensureLoggedIn (mkConfiguration false)
        (mkOracle (RenewError e1 :: RenewError e2 :: RenewError e3
                   :: RenewError e4 :: RenewError e5 :: rest) le ui us) w
      = (Rejected e5, mkOracle rest le ui us, w')
      /\ authResult w' = None
      /\ timers w' = ∅
      /\ trace w' = trace w ++ evs
      /\ evs = failedAttempt (config w) 0 e1 ++ [EvRetryDelay 1000]
               ++ failedAttempt (config w) 1 e2 ++ [EvRetryDelay 1000]
               ++ failedAttempt (config w) 2 e3 ++ [EvRetryDelay 1000]
               ++ failedAttempt (config w) 3 e4 ++ [EvRetryDelay 1000]
               ++ failedAttempt (config w) 4 e5
               ++ cancelEvents w
               ++ hookEvents (configuredHook hook_removeLogin (config w)) EvHookRemoveLogin
      /\ Forall (fun ev => isLockEvent ev = false) evs.
Proof.
  intros w e1 e2 e3 e4 e5 rest le ui us Hreach Hguard H1 H2 H3 H4.
  pose proof (reachable_coherent w Hreach) as Hcoh.
  unfold ensureLoggedIn.
  pose proof (stillValid_quiet w) as Hq. pose proof (stillValid_trace w) as Htr.
  destruct (stillValid w) as [valid w0]. cbn [fst snd] in Hguard, Hq, Htr. subst valid.
  cbn [renewals].
  rewrite renewAuth_error, (shouldRetry_transient 0 e1) by (lia || assumption).
  cbv zeta.
  rewrite renewAuth_error, (shouldRetry_transient _ e2) by (cbn; lia || assumption).
  cbv zeta.
  rewrite renewAuth_error, (shouldRetry_transient _ e3) by (cbn; lia || assumption).
  cbv zeta.
  rewrite renewAuth_error, (shouldRetry_transient _ e4) by (cbn; lia || assumption).
  cbv zeta.
  rewrite renewAuth_error, (shouldRetry_exhausted _ e5) by (cbn; lia).
  cbv zeta. unfold renewFailed. cbn [enableLockWidget negb thenProfile].
  match goal with |- context [removeLogin ?x] => set (w1 := x) end.
  destruct Hq as (Hc0 & Hh0 & Ha0 & Hn0 & Ht0 & Hl0).
  assert (quiet w w1) as Hq1 by (repeat split; assumption).
  assert (trace w1 = trace w
            ++ failedAttempt (config w) 0 e1 ++ [EvRetryDelay 1000]
            ++ failedAttempt (config w) 1 e2 ++ [EvRetryDelay 1000]
            ++ failedAttempt (config w) 2 e3 ++ [EvRetryDelay 1000]
            ++ failedAttempt (config w) 3 e4 ++ [EvRetryDelay 1000]
            ++ failedAttempt (config w) 4 e5) as Htr1.
  { subst w1. unfold log, elapse, failedAttempt.
    cbn [trace emit set_clock config]. rewrite Htr, Hc0, <- !app_assoc.
    reflexivity. }
  assert (coherent w1) as Hcoh1 by (apply (quiet_sound w w1); assumption).
  destruct Hq1 as (Hc1 & Hh1 & _).
  clearbody w1.
  destruct (removeLogin_fields w1) as (_ & Ha & _ & _ & Ht & _ & Htrace & _).
  eexists (snd (removeLogin w1)), _.
  split; [reflexivity|]. split; [|split; [|split; [|split]]].
  - rewrite Ha. apply coherent_clearedToken, Hcoh1.
  - rewrite Ht. apply coherent_cleared, Hcoh1.
  - rewrite Htrace, Htr1. unfold cancelEvents. rewrite Hc1, Hh1.
    fold (cancelEvents w). rewrite <- !app_assoc. reflexivity.
  - reflexivity.
  - unfold failedAttempt, cancelEvents, hookEvents. cbn [app].
    repeat (apply Forall_cons; split; [reflexivity|]).
    destruct (tokenRefreshHandle w) as [id|];
      [destruct (truthy_handle (Some id))|];
      destruct (configuredHook hook_removeLogin (config w));
      repeat (apply Forall_cons; split; [reflexivity|]); apply Forall_nil_2.
Qed.

Lemma expiredWorld_reachable : reachable expiredWorld.
Proof. exists None, 0, [], [OpTokenRefreshed token0]. reflexivity. Qed.

Lemma C6_five_failures_reject_witness :
  exists (w' : World) (evs : list Event),
    ensureLoggedIn (mkConfiguration false)
      (mkOracle (RenewError timeoutError :: RenewError timeoutError
                 :: RenewError timeoutError :: RenewError timeoutError
                 :: RenewError networkError :: []) [] [] []) expiredWorld
    = (Rejected networkError, mkOracle [] [] [] [], w')
    /\ authResult w' = None
    /\ timers w' = ∅
    /\ trace w' = trace expiredWorld ++ evs
    /\ evs = failedAttempt (config expiredWorld) 0 timeoutError ++ [EvRetryDelay 1000]
             ++ failedAttempt (config expiredWorld) 1 timeoutError ++ [EvRetryDelay 1000]
             ++ failedAttempt (config expiredWorld) 2 timeoutError ++ [EvRetryDelay 1000]
             ++ failedAttempt (config expiredWorld) 3 timeoutError ++ [EvRetryDelay 1000]
             ++ failedAttempt (config expiredWorld) 4 networkError
             ++ cancelEvents expiredWorld
             ++ hookEvents (configuredHook hook_removeLogin (config expiredWorld))
                           EvHookRemoveLogin
    /\ Forall (fun ev => isLockEvent ev = false) evs.
Proof.
  apply (C6_five_failures_reject expiredWorld timeoutError timeoutError
           timeoutError timeoutError networkError [] [] [] []).
  - exact expiredWorld_reachable.
  - vm_compute. reflexivity.
  - reflexivity.
  - reflexivity.
  - reflexivity.
  - reflexivity.
Defined.

(** ** The renewal timer *)


Lemma activeWorld_reachable : reachable activeWorld.
Proof. exists None, 0, [], [OpTokenRefreshed token90]. reflexivity. Qed.


(** ** [encodeURIComponent] *)

(** Induction on code units, one or two at a time. *)
Lemma units_pair_ind (P : list Z -> Prop) :
  P [] ->
  (forall c rest,
      P rest -> (forall k rest', rest = k :: rest' -> P rest') -> P (c :: rest)) ->
  forall s, P s.
Proof.
  intros Hnil Hstep s.
  assert (P s /\ (forall k rest', s = k :: rest' -> P rest')) as [H _]; [|exact H].
  induction s as [|c rest [IH1 IH2]].
  - split; [exact Hnil | discriminate].
  - split; [apply Hstep; assumption|].
    intros k rest' [= _ <-]. exact IH1.
Qed.

Lemma unitUnescaped_no_surrogate (c : Z) :
  unitUnescaped c = true -> isLowSurrogate c = false /\ isHighSurrogate c = false.
Proof.
  unfold unitUnescaped, isLowSurrogate, isHighSurrogate.
  intros [[H0 H1]%andb_true_iff _]%andb_true_iff.
  apply Z.ltb_lt in H1. split; apply andb_false_iff; left; apply Z.leb_gt; lia.
Qed.

(** [encodeURIComponent] throws exactly on the strings that are not well
    formed. *)
Lemma encodeURIComponent_throws (s : list Z) :
  encodeURIComponent s = None <-> wellFormed s = false.
Proof.
  induction s as [|c rest IH1 IH2] using units_pair_ind; [done|].
  cbn [encodeURIComponent wellFormed].
  destruct (unitUnescaped c) eqn:Eu.
  - destruct (unitUnescaped_no_surrogate c Eu) as [-> ->].
    rewrite <- IH1. destruct (encodeURIComponent rest); done.
  - destruct (isLowSurrogate c); [done|].
    destruct (isHighSurrogate c); cbn [negb].
    + destruct rest as [|k rest']; [done|].
      destruct (isLowSurrogate k); cbn [andb]; [|done].
      rewrite <- (IH2 k rest' eq_refl).
      destruct (encodeURIComponent rest'); done.
    + rewrite <- IH1. destruct (encodeURIComponent rest); done.
Qed.

Lemma encodeURIComponent_defined (s : list Z) :
  wellFormed s = true -> exists r, encodeURIComponent s = Some r.
Proof.
  intros Hwf. destruct (encodeURIComponent s) as [r|] eqn:E; [exists r; reflexivity|].
  apply encodeURIComponent_throws in E. congruence.
Qed.

Lemma hexDigit_unescaped (k : nat) : uriUnescaped (hexDigit k) = true.
Proof.
  do 16 (destruct k as [|k]; [reflexivity|]). reflexivity.
Qed.

Lemma escapeOctets_safe (octets : list Z) (rest : string) :
  stringForall uriSafe rest = true ->
  stringForall uriSafe (escapeOctets octets rest) = true.
Proof.
  intros Hrest. induction octets as [|o octets IH]; [exact Hrest|].
  cbn [escapeOctets fold_right percentEscape stringForall].
  fold (escapeOctets octets rest). unfold uriSafe at 1 2 3.
  rewrite !hexDigit_unescaped, IH. reflexivity.
Qed.

(** What [encodeURIComponent] returns consists of unescaped characters and
    [%] only. *)
Lemma encodeURIComponent_safe (s : list Z) :
  forall r, encodeURIComponent s = Some r -> stringForall uriSafe r = true.
Proof.
  induction s as [|c rest IH1 IH2] using units_pair_ind; intros r.
  - intros [= <-]. reflexivity.
  - cbn [encodeURIComponent].
    destruct (unitUnescaped c) eqn:Eu.
    + destruct (encodeURIComponent rest) as [r'|]; [|discriminate].
      intros [= <-]. cbn [stringForall]. rewrite (IH1 r' eq_refl).
      unfold unitUnescaped in Eu. apply andb_true_iff in Eu as [_ Eu].
      unfold uriSafe. rewrite Eu. reflexivity.
    + destruct (isLowSurrogate c); [discriminate|].
      destruct (isHighSurrogate c); cbn [negb].
      * destruct rest as [|k rest']; [discriminate|].
        destruct (isLowSurrogate k); [|discriminate].
        destruct (encodeURIComponent rest') as [r'|] eqn:E; [|discriminate].
        intros [= <-]. apply escapeOctets_safe, (IH2 k rest' eq_refl r' E).
      * destruct (encodeURIComponent rest) as [r'|]; [|discriminate].
        intros [= <-]. apply escapeOctets_safe, (IH1 r' eq_refl).
Qed.

(** *** Decoding what was encoded *)

Lemma hexValue_hexDigit (n : nat) :
  (n < 16)%nat -> hexValue (hexDigit n) = Some (Z.of_nat n).
Proof.
  intros Hn. do 16 (destruct n as [|n]; [reflexivity|]). lia.
Qed.

Lemma percentDecode_escape (o : Z) (rest : string) :
  0 <= o < 256 ->
  percentDecode (percentEscape o rest) = option_map (cons o) (percentDecode rest).
Proof.
  intros Ho. unfold percentEscape. cbn [percentDecode].
  change (Ascii.eqb "%" "%") with true. cbv iota.
  assert (0 <= o / 16 < 16) as Hq by (split; [apply Z.div_pos | apply Z.div_lt_upper_bound]; lia).
  assert (0 <= o mod 16 < 16) as Hr by (apply Z.mod_pos_bound; lia).
  rewrite !hexValue_hexDigit by lia. rewrite !Z2Nat.id by lia.
  rewrite <- (Z.div_mod o 16) by lia. reflexivity.
Qed.

Lemma percentDecode_escapeOctets (octets : list Z) (rest : string) :
  Forall (fun o => 0 <= o < 256) octets ->
  percentDecode (escapeOctets octets rest)
  = option_map (app octets) (percentDecode rest).
Proof.
  induction 1 as [|o octets Ho _ IH]; cbn [escapeOctets fold_right].
  - destruct (percentDecode rest); reflexivity.
  - fold (escapeOctets octets rest). rewrite (percentDecode_escape o _ Ho), IH.
    destruct (percentDecode rest); reflexivity.
Qed.

Lemma utf8Octets_range (v : Z) :
  0 <= v < 0x110000 -> Forall (fun o => 0 <= o < 256) (utf8Octets v).
Proof.
  intros Hv. unfold utf8Octets.
  pose proof (Z.mod_pos_bound v 64 ltac:(lia)).
  pose proof (Z.mod_pos_bound (v / 64) 64 ltac:(lia)).
  pose proof (Z.mod_pos_bound (v / 4096) 64 ltac:(lia)).
  destruct (Z.ltb_spec v 0x80); [repeat constructor; lia|].
  destruct (Z.ltb_spec v 0x800).
  { assert (0 <= v / 64 < 32)
      by (split; [apply Z.div_pos | apply Z.div_lt_upper_bound]; lia).
    repeat constructor; lia. }
  destruct (Z.ltb_spec v 0x10000).
  { assert (0 <= v / 4096 < 16)
      by (split; [apply Z.div_pos | apply Z.div_lt_upper_bound]; lia).
    repeat constructor; lia. }
  assert (0 <= v / 262144 < 5)
    by (split; [apply Z.div_pos | apply Z.div_lt_upper_bound]; lia).
  repeat constructor; lia.
Qed.

Lemma pairCodePoint_range (hi lo : Z) :
  isHighSurrogate hi = true -> isLowSurrogate lo = true ->
  0 <= pairCodePoint hi lo < 0x110000.
Proof.
  unfold isHighSurrogate, isLowSurrogate, pairCodePoint.
  intros [H1 H2]%andb_true_iff [H3 H4]%andb_true_iff.
  apply Z.leb_le in H1, H2, H3, H4. lia.
Qed.

Lemma unescaped_not_percent (a : ascii) :
  uriUnescaped a = true -> Ascii.eqb a "%" = false.
Proof.
  destruct a as [[] [] [] [] [] [] [] []]; vm_compute; congruence.
Qed.

Lemma percentDecode_literal (c : Z) (rest : string) :
  unitUnescaped c = true ->
  percentDecode (String (ascii_of_nat (Z.to_nat c)) rest)
  = option_map (app (utf8Octets c)) (percentDecode rest).
Proof.
  unfold unitUnescaped. intros [[H0 H1]%andb_true_iff Hu]%andb_true_iff.
  apply Z.leb_le in H0. apply Z.ltb_lt in H1.
  cbn [percentDecode]. rewrite (unescaped_not_percent _ Hu).
  rewrite nat_ascii_embedding by lia. rewrite Z2Nat.id by lia.
  unfold utf8Octets. destruct (Z.ltb_spec c 0x80); [|lia].
  destruct (percentDecode rest); reflexivity.
Qed.

(** Percent-decoding the result of [encodeURIComponent] gives the UTF-8
    octets of the string. *)
Lemma encodeURIComponent_decodes (s : list Z) :
  codeUnits s ->
  forall r, encodeURIComponent s = Some r -> percentDecode r = Some (utf8OfUnits s).
Proof.
  induction s as [|c rest IH1 IH2] using units_pair_ind; intros Hs r.
  - intros [= <-]. reflexivity.
  - apply Forall_cons in Hs as [Hc Hrest].
    cbn [encodeURIComponent utf8OfUnits].
    destruct (unitUnescaped c) eqn:Eu.
    + destruct (unitUnescaped_no_surrogate c Eu) as [_ ->].
      destruct (encodeURIComponent rest) as [r'|]; [|discriminate].
      intros [= <-]. rewrite (percentDecode_literal c r' Eu), (IH1 Hrest r' eq_refl).
      reflexivity.
    + destruct (isLowSurrogate c); [discriminate|].
      destruct (isHighSurrogate c) eqn:Eh; cbn [negb].
      * destruct rest as [|k rest']; [discriminate|].
        apply Forall_cons in Hrest as [Hk Hrest'].
        destruct (isLowSurrogate k) eqn:El; [|discriminate].
        destruct (encodeURIComponent rest') as [r'|] eqn:E; [|discriminate].
        intros [= <-].
        rewrite percentDecode_escapeOctets
          by (apply utf8Octets_range, pairCodePoint_range; assumption).
        rewrite (IH2 k rest' eq_refl Hrest' r' E). reflexivity.
      * destruct (encodeURIComponent rest) as [r'|]; [|discriminate].
        intros [= <-].
        rewrite percentDecode_escapeOctets by (apply utf8Octets_range; lia).
        rewrite (IH1 Hrest r' eq_refl). reflexivity.
Qed.

(** ** [logout] and the handle *)

Lemma activeWith_reachable (c : Config) : reachable (activeWith c).
Proof. exists (Some c), 0, [], [OpTokenRefreshed token90]. reflexivity. Qed.

(** C7 (counterexample).  With a surrogate half at the end of the
    configured redirect URI, [encodeURIComponent] throws: [logout] has
    cancelled the timer, cleared the token and called the hook, and the
    window is not sent anywhere. *)
Lemma C7_lone_surrogate_stops_logout : ~ logout_always_navigates.
Proof.
  intros H.
  destruct (H (activeWith loneSurrogateConfig)
              (activeWith_reachable loneSurrogateConfig)) as [returnTo Hloc].
  vm_compute in Hloc. discriminate Hloc.
Qed.

(** C7 (amended).  In every world an instance can be in whose configured
    redirect URI is well formed (no surrogate half without its other
    half; an absent one reads [undefined]), [logout] cancels the pending
    renewal timer (none is left), clears the stored token, calls the
    logout hook when one is configured, and then sends the window to
    [https://{domain}/v2/logout?returnTo={R}&client_id={clientId}] (an
    absent domain or client id reads [undefined]), where [R] is what
    [encodeURIComponent] makes of the redirect URI: unescaped characters
    and percent escapes only, which decode to the URI's UTF-8 octets when
    its code units are in range; and the call does not throw. *)
Theorem C7_logout :
  forall w : World,
    reachable w ->
    wellFormed (js_units (logoutRedirectUri (config w))) = true ->
    exists returnTo : string,
      encodeURIComponent (js_units (logoutRedirectUri (config w))) = Some returnTo
      /\ stringForall uriSafe returnTo = true
      /\ (codeUnits (js_units (logoutRedirectUri (config w))) ->
          percentDecode returnTo
          = Some (utf8OfUnits (js_units (logoutRedirectUri (config w)))))
      /\ timers (logout w) = ∅
      /\ authResult (logout w) = None
      /\ location (logout w)
         = Some ("https://"
                 +:+ match domain (config w) with
                     | Some d => d
                     | None => "undefined"
                     end
                 +:+ "/v2/logout?returnTo=" +:+ returnTo +:+ "&client_id="
                 +:+ match clientId (config w) with
                     | Some i => i
                     | None => "undefined"
                     end)
      /\ trace (logout w)
         = trace w
           ++ match tokenRefreshHandle w with
              | Some id => [EvClearTimeout id]
              | None => []
              end
           ++ logoutHookEvents (config w)
           ++ [EvUpdateWindow
                 ("https://"
                  +:+ match domain (config w) with
                      | Some d => d
                      | None => "undefined"
                      end
                  +:+ "/v2/logout?returnTo=" +:+ returnTo +:+ "&client_id="
                  +:+ match clientId (config w) with
                      | Some i => i
                      | None => "undefined"
                      end)]
      /\ logoutThrows w = false
      /\ (forall id t, timers w !! id = Some t -> tokenRefreshHandle w = Some id).
Proof.
  intros w Hreach Hwf.
  pose proof (reachable_coherent w Hreach) as Hcoh.
  destruct (encodeURIComponent_defined _ Hwf) as [r Hr].
  destruct (logout_fields w) as (_ & Ha & _ & _ & Ht & Hl & Htr).
  rewrite (coherent_cancelEvents w Hcoh) in Htr.
  assert (logoutUrl (config w)
          = Some ("https://"
                  +:+ match domain (config w) with
                      | Some d => d
                      | None => "undefined"
                      end
                  +:+ "/v2/logout?returnTo=" +:+ r +:+ "&client_id="
                  +:+ match clientId (config w) with
                      | Some i => i
                      | None => "undefined"
                      end)) as Hurl.
  { unfold logoutUrl. rewrite Hr. unfold js_string.
    destruct (domain (config w)), (clientId (config w)); reflexivity. }
  rewrite Hurl in Hl, Htr.
  exists r. split; [exact Hr|].
  split; [apply (encodeURIComponent_safe _ r Hr)|].
  split; [intros Hunits; apply (encodeURIComponent_decodes _ Hunits r Hr)|].
  split; [rewrite Ht; apply coherent_cleared, Hcoh|].
  split; [rewrite Ha; apply coherent_clearedToken, Hcoh|].
  split; [exact Hl|]. split; [exact Htr|].
  split; [unfold logoutThrows; rewrite Hurl; reflexivity|].
  apply (coh_timers _ Hcoh).
Qed.

Lemma C7_logout_witness :
  (exists returnTo : string,
      encodeURIComponent (js_units (logoutRedirectUri (config (activeWith sampleLogoutConfig))))
      = Some returnTo
      /\ stringForall uriSafe returnTo = true
      /\ (codeUnits (js_units (logoutRedirectUri (config (activeWith sampleLogoutConfig)))) ->
          percentDecode returnTo
          = Some (utf8OfUnits
                    (js_units (logoutRedirectUri (config (activeWith sampleLogoutConfig))))))
      /\ timers (logout (activeWith sampleLogoutConfig)) = ∅
      /\ authResult (logout (activeWith sampleLogoutConfig)) = None
      /\ location (logout (activeWith sampleLogoutConfig))
         = Some ("https://"
                 +:+ match domain (config (activeWith sampleLogoutConfig)) with
                     | Some d => d
                     | None => "undefined"
                     end
                 +:+ "/v2/logout?returnTo=" +:+ returnTo +:+ "&client_id="
                 +:+ match clientId (config (activeWith sampleLogoutConfig)) with
                     | Some i => i
                     | None => "undefined"
                     end)
      /\ trace (logout (activeWith sampleLogoutConfig))
         = trace (activeWith sampleLogoutConfig)
           ++ match tokenRefreshHandle (activeWith sampleLogoutConfig) with
              | Some id => [EvClearTimeout id]
              | None => []
              end
           ++ logoutHookEvents (config (activeWith sampleLogoutConfig))
           ++ [EvUpdateWindow
                 ("https://"
                  +:+ match domain (config (activeWith sampleLogoutConfig)) with
                      | Some d => d
                      | None => "undefined"
                      end
                  +:+ "/v2/logout?returnTo=" +:+ returnTo +:+ "&client_id="
                  +:+ match clientId (config (activeWith sampleLogoutConfig)) with
                      | Some i => i
                      | None => "undefined"
                      end)]
      /\ logoutThrows (activeWith sampleLogoutConfig) = false
      /\ (forall id t, timers (activeWith sampleLogoutConfig) !! id = Some t ->
          tokenRefreshHandle (activeWith sampleLogoutConfig) = Some id))
  /\ location (logout (activeWith sampleLogoutConfig))
     = Some "https://tenant.auth0.com/v2/logout?returnTo=https%3A%2F%2Fapp.example%2Fapr%C3%A8s%3Fx%3D1%26y%3D%F0%9F%98%80&client_id=abc123"
  /\ trace (logout (activeWith sampleLogoutConfig))
     = [EvSetTimeout 1 (mkTimer (CallEnsureLoggedIn true) 60000);
        EvClearTimeout 1; EvHookLogout;
        EvUpdateWindow "https://tenant.auth0.com/v2/logout?returnTo=https%3A%2F%2Fapp.example%2Fapr%C3%A8s%3Fx%3D1%26y%3D%F0%9F%98%80&client_id=abc123"].
Proof.
  split; [|split; vm_compute; reflexivity].
  apply (C7_logout (activeWith sampleLogoutConfig)).
  - exact (activeWith_reachable sampleLogoutConfig).
  - vm_compute. reflexivity.
Defined.

(** The URL on a configuration whose redirect URI needs escaping, and on
    the empty configuration. *)
Example logoutUrl_sample :
  logoutUrl sampleLogoutConfig
  = Some "https://tenant.auth0.com/v2/logout?returnTo=https%3A%2F%2Fapp.example%2Fapr%C3%A8s%3Fx%3D1%26y%3D%F0%9F%98%80&client_id=abc123"
  /\ logoutUrl emptyConfig
     = Some "https://undefined/v2/logout?returnTo=undefined&client_id=undefined"
  /\ logoutUrl loneSurrogateConfig = None.
Proof. repeat split; reflexivity. Qed.

(** C10.  In every world an instance can be in, a stored token comes with
    a timer handle that is set (and truthy); no operation sets the handle
    back to [null]; hence the handle-guarded clearing of [removeLogin] and
    of [logout] does clear the token. *)
Theorem C10_token_implies_handle :
  forall w : World,
    reachable w ->
    (authResult w <> None ->
     exists id, tokenRefreshHandle w = Some id /\ truthy_handle (Some id) = true)
    /\ (forall op : Op,
        tokenRefreshHandle w <> None -> tokenRefreshHandle (perform op w) <> None)
    /\ authResult (snd (removeLogin w)) = None
    /\ authResult (logout w) = None.
Proof.
  intros w Hreach.
  pose proof (reachable_coherent w Hreach) as Hcoh.
  split; [|split; [|split]].
  - intros Ha. apply (coh_token _ Hcoh) in Ha.
    destruct (tokenRefreshHandle w) as [id|] eqn:Hid; [|done].
    exists id. split; [reflexivity | apply (coherent_truthy w id Hcoh Hid)].
  - intros op. apply (sound_perform op w).
  - destruct (removeLogin_fields w) as (_ & -> & _).
    apply coherent_clearedToken, Hcoh.
  - destruct (logout_fields w) as (_ & -> & _).
    apply coherent_clearedToken, Hcoh.
Qed.

Lemma C10_token_implies_handle_witness :
  (authResult activeWorld <> None ->
   exists id, tokenRefreshHandle activeWorld = Some id /\ truthy_handle (Some id) = true)
  /\ (forall op : Op,
      tokenRefreshHandle activeWorld <> None ->
      tokenRefreshHandle (perform op activeWorld) <> None)
  /\ authResult (snd (removeLogin activeWorld)) = None
  /\ authResult (logout activeWorld) = None.
Proof.
  apply (C10_token_implies_handle activeWorld).
  exists None, 0, [], [OpTokenRefreshed token90]. reflexivity.
Defined.

(** ** Errors on the widget path *)

(** The errors the widget path does hand to [reject]: an
    ['authorization_error'] event and a failed [getUserInfo]. *)
Lemma lock_errors_that_reject (c : option Config) (t0 : Z) (ds : list Z)
      (e : JsError) (a : AuthResult) :
  fst (fst (ensureLoggedIn (mkConfiguration true)
              (mkOracle [RenewData (Some deniedAnswer)]
                        [LockAuthorizationError e] [] [])
              (constructor c t0 ds)))
  = Rejected e
  /\ fst (fst (ensureLoggedIn (mkConfiguration true)
                 (mkOracle [RenewData (Some deniedAnswer); RenewData (Some token90)]
                           [LockAuthenticated a] [UserInfoError e] [])
                 (constructor None t0 ds)))
     = Rejected e.
Proof.
  split.
  - reflexivity.
  - destruct ds as [|d [|d' ds]]; reflexivity.
Qed.

(** C8 (the code departs from the claim).  The claim: every error on the
    widget path makes the promise of [ensureLoggedIn] reject.  The code:
    on a new instance whose first silent renewal is refused, with the
    widget enabled,
    - when the user authenticates ([a]) and the renewal made by the
      ['authenticated'] handler is refused too, the promise is never
      settled: that renewal has a [.then] and no rejection handler;
    - the same when that renewal uses up its retries on transient errors;
    - when the user closes the widget, the promise is never settled
      either: no handler listens. *)
Theorem C8_widget_errors_left_pending :
  forall (c : option Config) (t0 : Z) (ds : list Z) (a : AuthResult)
         (ui : list UserInfoResponse) (us : list GetUserResponse),
    fst (fst (ensureLoggedIn (mkConfiguration true)
                (mkOracle [RenewData (Some deniedAnswer); RenewData (Some deniedAnswer)]
                          [LockAuthenticated a] ui us)
                (constructor c t0 ds)))
    = Pending
    /\ fst (fst (ensureLoggedIn (mkConfiguration true)
                   (mkOracle [RenewData (Some deniedAnswer);
                              RenewError timeoutError; RenewError timeoutError;
                              RenewError timeoutError; RenewError timeoutError;
                              RenewError networkError]
                             [LockAuthenticated a] ui us)
                   (constructor c t0 ds)))
       = Pending
    /\ fst (fst (ensureLoggedIn (mkConfiguration true)
                   (mkOracle [RenewData (Some deniedAnswer)] [LockHidden] ui us)
                   (constructor c t0 ds)))
       = Pending.
Proof.
  intros c t0 ds a ui us. repeat split; reflexivity.
Qed.

(** * Further properties *)

(** ** Invariants carried through renewal and fallback *)

(** Whatever a property [I] of worlds says, if the clock, the trace,
    [tokenRefreshed] and [removeLogin] keep it, then so do the renewal
    loop, the widget session and [ensureLoggedIn]. *)
Section SessionInvariant.

Variable I : World -> Prop.
Hypothesis I_clock : forall t ds w, I w -> I (set_clock t ds w).
Hypothesis I_emit : forall ev w, I w -> I (emit ev w).
Hypothesis I_tokenRefreshed : forall a w, I w -> I (snd (tokenRefreshed a w)).
Hypothesis I_removeLogin : forall w, I w -> I (snd (removeLogin w)).

Lemma I_getRemaining (a : AuthResult) (w : World) :
  I w -> I (snd (getRemainingMillisToTokenEpxiry a w)).
Proof.
  intros H. destruct (getRemaining_spec a w) as (t & ds & ->). cbn [snd].
  apply I_clock, H.
Qed.

Lemma I_stillValid (w : World) : I w -> I (snd (stillValid w)).
Proof.
  intros H. unfold stillValid, getLatestAuthResult.
  destruct (authResult w) as [a|]; [|exact H].
  pose proof (I_getRemaining a w H) as H'.
  destruct (getRemainingMillisToTokenEpxiry a w). exact H'.
Qed.

Lemma I_renewAnswered (retries : nat) (r : RenewResponse) (w : World) :
  I w -> I (snd (renewAnswered retries r w)).
Proof.
  intros H. unfold renewAnswered. destruct r as [err|[a|]]; cbn [snd].
  - apply I_emit, H.
  - destruct (truthy_string (accessToken a) && truthy_string (idToken a)).
    + pose proof (I_tokenRefreshed a w H) as H'.
      destruct (tokenRefreshed a w) as [refreshed w1].
      destruct refreshed, (idTokenPayload a); exact H'.
    + exact H.
  - exact H.
Qed.

(** It is enough that [I] holds once the provider has been called. *)
Lemma I_renewAuth (script : list RenewResponse) :
  forall (retries : nat) (w : World),
    I (emit EvRenewAuth w) -> I (snd (renewAuth script retries w)).
Proof.
  induction script as [|r rest IH]; intros retries w H; cbn [renewAuth].
  - exact H.
  - pose proof (I_renewAnswered retries r _ H) as H1.
    destruct (renewAnswered retries r (emit EvRenewAuth w)) as [res w1].
    cbn [snd] in H1.
    destruct res as [li|e|]; [exact H1| |exact H1].
    destruct (shouldRetry retries e) as [ms|]; [|exact H1].
    apply IH. apply I_emit. unfold elapse. apply I_clock, I_emit, H1.
Qed.

Lemma I_lockSession (events : list LockEvent) :
  forall (o : Oracle) (w : World), I w -> I (snd (lockSession events o w)).
Proof.
  induction events as [|ev events IH]; intros o w H; cbn [lockSession].
  - exact H.
  - destruct ev as [a|e|].
    + pose proof (I_renewAuth (renewals o) 0%nat w (I_emit _ _ H)) as H1.
      destruct (renewAuth (renewals o) 0 w) as [[renewed rs] w1]. cbn [snd] in H1.
      destruct renewed as [li|e|]; [|apply IH, H1|apply IH, H1].
      destruct (userInfos o) as [|[e|s] uis].
      * apply IH, I_emit, H1.
      * cbn [snd]. unfold log. repeat apply I_emit. exact H1.
      * cbn [snd]. repeat apply I_emit. exact H1.
    + cbn [snd]. apply I_emit, H.
    + apply IH, H.
Qed.

Lemma I_thenProfile (acquired : Outcome LoginInfo) (o : Oracle) (w : World) :
  I w -> I (snd (thenProfile acquired o w)).
Proof.
  intros H. unfold thenProfile, getDetailedProfile, profileRefreshed.
  destruct acquired as [li|e|]; try exact H.
  destruct (users o) as [|[e|p] us]; cbn [snd]; try (apply I_emit, H).
  cbn [config emit].
  destruct (configuredHook hook_profileRefreshed (config w)); cbn [snd];
    repeat apply I_emit; exact H.
Qed.

Lemma I_renewFailed (c : Configuration) (e : JsError) (o : Oracle) (w : World) :
  I w -> I (snd (renewFailed c e o w)).
Proof.
  intros H. unfold renewFailed.
  destruct (negb (enableLockWidget c)); cbn [snd].
  - apply I_removeLogin, H.
  - apply I_lockSession. unfold log. repeat apply I_emit.
    apply I_removeLogin, H.
Qed.

Lemma I_ensureLoggedIn (c : Configuration) (o : Oracle) (w : World) :
  I w -> I (snd (ensureLoggedIn c o w)).
Proof.
  intros H. unfold ensureLoggedIn.
  pose proof (I_stillValid w H) as H0.
  destruct (stillValid w) as [valid w0]. cbn [snd] in H0.
  destruct valid; [exact H0|].
  pose proof (I_renewAuth (renewals o) 0%nat w0 (I_emit _ _ H0)) as H1.
  destruct (renewAuth (renewals o) 0 w0) as [[renewed rs] w1]. cbn [snd] in H1.
  destruct renewed as [li|e|]; try (apply I_thenProfile, H1).
  pose proof (I_renewFailed c e
    (mkOracle rs (lockEvents o) (userInfos o) (users o)) w1 H1) as H2.
  destruct (renewFailed _ _ _ _) as [[acquired o2] w2]. cbn [snd] in H2.
  apply I_thenProfile, H2.
Qed.

(** With the firing of a timer kept too, every operation but [logout]
    keeps [I]. *)
Hypothesis I_timer :
  forall id w, I w -> I (set_timers (nextTimer w) (delete id (timers w)) w).

Lemma I_perform (op : Op) (w : World) :
  isLogoutOp op = false -> I w -> I (perform op w).
Proof.
  intros Hop H.
  destruct op as [c o|script retries|a| | |id o|ms]; cbn [perform];
    try discriminate Hop.
  - apply I_ensureLoggedIn, H.
  - apply I_renewAuth, I_emit, H.
  - apply I_tokenRefreshed, H.
  - apply I_removeLogin, H.
  - unfold fireTimer. destruct (timers w !! id) as [t|]; [|exact H].
    destruct (callback t) as [b]. cbn [snd].
    apply I_ensureLoggedIn, I_timer, H.
  - unfold elapse. apply I_clock, H.
Qed.

Lemma I_run (ops : list Op) :
  forall w : World,
    forallb (fun op => negb (isLogoutOp op)) ops = true -> I w -> I (run ops w).
Proof.
  unfold run. induction ops as [|op ops IH]; intros w Hops H; cbn [fold_left].
  - exact H.
  - cbn [forallb] in Hops. apply andb_true_iff in Hops as [Hop Hops].
    apply negb_true_iff in Hop.
    apply IH; [exact Hops | apply I_perform; assumption].
Qed.

(** When [logout] keeps [I] as well, every history does. *)
Hypothesis I_logout : forall w, I w -> I (logout w).

Lemma I_run_all (ops : list Op) : forall w : World, I w -> I (run ops w).
Proof.
  unfold run. induction ops as [|op ops IH]; intros w H; cbn [fold_left].
  - exact H.
  - apply IH. destruct (isLogoutOp op) eqn:Hop.
    + destruct op; try discriminate Hop. apply I_logout, H.
    + apply I_perform; assumption.
Qed.

End SessionInvariant.

(** ** Events that only renewal and the widget produce *)

Section EventFilter.

(** [sel] picks nothing but provider calls and widget events. *)
Variable sel : Event -> bool.
Hypothesis sel_only :
  forall ev, sel ev = true -> isRenewAuth ev = true \/ isLockEvent ev = true.

Lemma selected_added (w w' : World) (evs : list Event) :
  trace w' = trace w ++ evs ->
  Forall (fun ev => isRenewAuth ev = false /\ isLockEvent ev = false) evs ->
  selected sel w' = selected sel w.
Proof.
  intros Htr Hevs. unfold selected. rewrite Htr, List.filter_app.
  rewrite <- (app_nil_r (List.filter sel (trace w))) at 2. f_equal.
  clear Htr. induction Hevs as [|ev evs [H1 H2] _ IH]; [reflexivity|].
  cbn [List.filter]. destruct (sel ev) eqn:E; [|exact IH].
  apply sel_only in E as [E|E]; congruence.
Qed.

Lemma selected_emit (ev : Event) (w : World) :
  isRenewAuth ev = false -> isLockEvent ev = false ->
  selected sel (emit ev w) = selected sel w.
Proof.
  intros H1 H2. apply (selected_added w _ [ev]); [reflexivity|].
  apply Forall_cons; split; [split; assumption | apply Forall_nil_2].
Qed.

Lemma selected_clock (t : Z) (ds : list Z) (w : World) :
  selected sel (set_clock t ds w) = selected sel w.
Proof. reflexivity. Qed.

Lemma selected_stillValid (w : World) :
  selected sel (snd (stillValid w)) = selected sel w.
Proof. unfold selected. rewrite stillValid_trace. reflexivity. Qed.

Lemma selected_tokenRefreshed (a : AuthResult) (w : World) :
  selected sel (snd (tokenRefreshed a w)) = selected sel w.
Proof.
  destruct (tokenRefreshed_fields a w) as (_ & _ & _ & _ & _ & _ & Htr & _).
  apply (selected_added _ _ _ Htr).
  unfold cancelEvents, hookEvents.
  destruct (tokenRefreshHandle w) as [id|];
    [destruct (truthy_handle (Some id))|];
    destruct (configuredHook hook_tokenRefreshed (config w));
    repeat (apply Forall_cons; split; [split; reflexivity|]); apply Forall_nil_2.
Qed.

Lemma selected_removeLogin (w : World) :
  selected sel (snd (removeLogin w)) = selected sel w.
Proof.
  destruct (removeLogin_fields w) as (_ & _ & _ & _ & _ & _ & Htr & _).
  apply (selected_added _ _ _ Htr).
  unfold cancelEvents, hookEvents.
  destruct (tokenRefreshHandle w) as [id|];
    [destruct (truthy_handle (Some id))|];
    destruct (configuredHook hook_removeLogin (config w));
    repeat (apply Forall_cons; split; [split; reflexivity|]); apply Forall_nil_2.
Qed.

Lemma selected_renewAnswered (retries : nat) (r : RenewResponse) (w : World) :
  selected sel (snd (renewAnswered retries r w)) = selected sel w.
Proof.
  unfold renewAnswered. destruct r as [err|[a|]]; cbn [snd].
  - apply selected_emit; reflexivity.
  - destruct (truthy_string (accessToken a) && truthy_string (idToken a));
      [|reflexivity].
    pose proof (selected_tokenRefreshed a w) as H.
    destruct (tokenRefreshed a w) as [refreshed w1].
    destruct refreshed, (idTokenPayload a); exact H.
  - reflexivity.
Qed.

Lemma selected_thenProfile (acquired : Outcome LoginInfo) (o : Oracle) (w : World) :
  selected sel (snd (thenProfile acquired o w)) = selected sel w.
Proof.
  unfold thenProfile, getDetailedProfile, profileRefreshed.
  destruct acquired as [li|e|]; try reflexivity.
  destruct (users o) as [|[e|p] us]; cbn [snd];
    try (apply selected_emit; reflexivity).
  cbn [config emit].
  destruct (configuredHook hook_profileRefreshed (config w)); cbn [snd];
    rewrite ?selected_emit by reflexivity; reflexivity.
Qed.

(** The pause between two attempts. *)
Lemma selected_pause (ms : Z) (w : World) :
  selected sel (elapse ms (emit (EvRetryDelay ms) w)) = selected sel w.
Proof.
  unfold elapse. rewrite selected_clock. apply selected_emit; reflexivity.
Qed.

End EventFilter.

Lemma lock_events_only (ev : Event) :
  isLockEvent ev = true -> isRenewAuth ev = true \/ isLockEvent ev = true.
Proof. auto. Qed.

Lemma renew_events_only (ev : Event) :
  isRenewAuth ev = true -> isRenewAuth ev = true \/ isLockEvent ev = true.
Proof. auto. Qed.

Lemma lock_events_renewAuth (script : list RenewResponse) :
  forall (retries : nat) (w : World),
    selected isLockEvent (snd (renewAuth script retries w)) = selected isLockEvent w.
Proof.
  induction script as [|r rest IH]; intros retries w; cbn [renewAuth].
  - cbn [snd]. unfold selected. cbn [trace emit]. rewrite List.filter_app.
    apply app_nil_r.
  - pose proof (selected_renewAnswered isLockEvent lock_events_only retries r
                  (emit EvRenewAuth w)) as H.
    destruct (renewAnswered retries r (emit EvRenewAuth w)) as [res w1].
    cbn [snd] in H.
    assert (selected isLockEvent w1 = selected isLockEvent w) as Hw1.
    { rewrite H. unfold selected. cbn [trace emit]. rewrite List.filter_app.
      apply app_nil_r. }
    destruct res as [li|e|]; [exact Hw1| |exact Hw1].
    destruct (shouldRetry retries e) as [ms|]; [|exact Hw1].
    rewrite IH, (selected_pause isLockEvent lock_events_only). exact Hw1.
Qed.

Lemma providerCalls_call (w : World) :
  providerCalls (emit EvRenewAuth w) = S (providerCalls w).
Proof.
  unfold providerCalls, selected. cbn [trace emit].
  rewrite List.filter_app, length_app. cbn. lia.
Qed.

Lemma providerCalls_pause (ms : Z) (w : World) :
  providerCalls (elapse ms (emit (EvRetryDelay ms) w)) = providerCalls w.
Proof.
  unfold providerCalls. rewrite (selected_pause isRenewAuth renew_events_only).
  reflexivity.
Qed.

Lemma providerCalls_renewAuth (script : list RenewResponse) :
  forall (retries : nat) (w : World),
    (providerCalls w + 1 <= providerCalls (snd (renewAuth script retries w))
     /\ providerCalls (snd (renewAuth script retries w))
        <= providerCalls w + Nat.max 1 (5 - retries))%nat.
Proof.
  induction script as [|r rest IH]; intros retries w; cbn [renewAuth].
  - cbn [snd]. rewrite providerCalls_call. lia.
  - pose proof (selected_renewAnswered isRenewAuth renew_events_only retries r
                  (emit EvRenewAuth w)) as H.
    destruct (renewAnswered retries r (emit EvRenewAuth w)) as [res w1].
    cbn [snd] in H.
    assert (providerCalls w1 = S (providerCalls w)) as Hw1.
    { unfold providerCalls at 1. rewrite H. apply providerCalls_call. }
    destruct res as [li|e|]; cbn [snd]; try lia.
    unfold shouldRetry.
    destruct (Nat.ltb_spec retries 4) as [Hlt|Hge]; cbn [andb snd]; [|lia].
    destruct (isUndefined (e_authResultError e)); cbn [snd]; [|lia].
    specialize (IH (retries + 1)%nat
                   (elapse retryDelay (emit (EvRetryDelay retryDelay) w1))).
    rewrite providerCalls_pause in IH. lia.
Qed.

Lemma selected_ensureLoggedIn_disabled (sel : Event -> bool) (o : Oracle) (w : World) :
  (forall ev, sel ev = true -> isRenewAuth ev = true \/ isLockEvent ev = true) ->
  selected sel (snd (ensureLoggedIn (mkConfiguration false) o w))
  = if fst (stillValid w) then selected sel w
    else selected sel (snd (renewAuth (renewals o) 0 (snd (stillValid w)))).
Proof.
  intros Hsel. unfold ensureLoggedIn.
  pose proof (selected_stillValid sel w) as H0.
  destruct (stillValid w) as [valid w0]. cbn [fst snd] in *.
  destruct valid; [exact H0|].
  destruct (renewAuth (renewals o) 0 w0) as [[renewed rs] w1]. cbn [snd].
  destruct renewed as [li|e|]; try apply (selected_thenProfile sel Hsel).
  unfold renewFailed. cbn [enableLockWidget negb].
  rewrite (selected_thenProfile sel Hsel). apply (selected_removeLogin sel Hsel).
Qed.

(** ** The retry budget and the widget switch *)

(** X1.  One call of [renewAuth(retries)] asks the provider at least once
    and at most [5 - retries] times (once from attempt 4 on), whatever the
    provider answers; so [renewAuth()] asks at most five times, and so does
    [ensureLoggedIn] when the widget is disabled. *)
Theorem renewAuth_asks_at_most_five_times :
  forall (script : list RenewResponse) (retries : nat) (o : Oracle) (w : World),
    (providerCalls w + 1 <= providerCalls (snd (renewAuth script retries w))
     /\ providerCalls (snd (renewAuth script retries w))
        <= providerCalls w + Nat.max 1 (5 - retries)
     /\ providerCalls (snd (renewAuth script 0 w)) <= providerCalls w + 5
     /\ providerCalls (snd (ensureLoggedIn (mkConfiguration false) o w))
        <= providerCalls w + 5)%nat.
Proof.
  intros script retries o w.
  destruct (providerCalls_renewAuth script retries w) as [H1 H2].
  destruct (providerCalls_renewAuth script 0%nat w) as [_ H3].
  repeat (split; [assumption|]).
  unfold providerCalls at 1.
  rewrite (selected_ensureLoggedIn_disabled isRenewAuth o w renew_events_only).
  destruct (fst (stillValid w)); [fold (providerCalls w); lia|].
  destruct (providerCalls_renewAuth (renewals o) 0%nat (snd (stillValid w))) as [_ H4].
  unfold providerCalls at 2 in H4.
  rewrite (selected_stillValid isRenewAuth w) in H4.
  fold (providerCalls w) in H4. exact H4.
Qed.

(** X2.  With [enableLockWidget] false, [ensureLoggedIn] never creates,
    shows, hides or queries the lock widget, whatever the world it starts
    in and whatever the collaborators answer: the widget events of the
    trace are the same before and after. *)
Theorem widget_disabled_never_opens_lock :
  forall (o : Oracle) (w : World),
    selected isLockEvent (snd (ensureLoggedIn (mkConfiguration false) o w))
    = selected isLockEvent w.
Proof.
  intros o w.
  rewrite (selected_ensureLoggedIn_disabled isLockEvent o w lock_events_only).
  destruct (fst (stillValid w)); [reflexivity|].
  rewrite lock_events_renewAuth. apply (selected_stillValid isLockEvent w).
Qed.

(** ** Transient failures are absorbed *)

Lemma afterFailures_quiet (errs : list JsError) :
  forall (retries : nat) (w : World), quiet w (afterFailures errs retries w).
Proof.
  induction errs as [|e errs IH]; intros retries w; cbn [afterFailures].
  - apply quiet_refl.
  - eapply quiet_trans; [|apply IH]. quiet_chain.
Qed.

Lemma afterFailures_clock (errs : list JsError) :
  forall (retries : nat) (w : World),
    now (afterFailures errs retries w) = now w + 1000 * Z.of_nat (length errs)
    /\ ticks (afterFailures errs retries w) = ticks w.
Proof.
  induction errs as [|e errs IH]; intros retries w; cbn [afterFailures].
  - cbn [length]. split; [lia | reflexivity].
  - destruct (IH (retries + 1)%nat
                 (elapse retryDelay (emit (EvRetryDelay retryDelay)
                    (log (MsgRenewFailed retries e) (emit EvRenewAuth w)))))
      as [-> ->].
    unfold retryDelay. cbn [now ticks elapse set_clock emit log length].
    split; [lia | reflexivity].
Qed.

Lemma afterFailures_calls (errs : list JsError) :
  forall (retries : nat) (w : World),
    providerCalls (afterFailures errs retries w) = (providerCalls w + length errs)%nat.
Proof.
  induction errs as [|e errs IH]; intros retries w; cbn [afterFailures length].
  - lia.
  - rewrite IH, providerCalls_pause. unfold providerCalls at 1.
    unfold log. rewrite (selected_emit isRenewAuth renew_events_only) by reflexivity.
    fold (providerCalls (emit EvRenewAuth w)). rewrite providerCalls_call. lia.
Qed.

Lemma renewAuth_absorbs (errs : list JsError) :
  forall (retries : nat) (script : list RenewResponse) (w : World),
    (retries + length errs <= 4)%nat ->
    Forall transient errs ->
    renewAuth (map RenewError errs ++ script) retries w
    = renewAuth script (retries + length errs) (afterFailures errs retries w).
Proof.
  induction errs as [|e errs IH]; intros retries script w Hn Htr.
  - cbn [map app length afterFailures]. rewrite Nat.add_0_r. reflexivity.
  - apply Forall_cons in Htr as [He Htr]. cbn [length] in Hn.
    cbn [map app]. rewrite renewAuth_error. cbv zeta.
    rewrite (shouldRetry_transient retries e) by (lia || exact He).
    rewrite IH by (lia || exact Htr).
    cbn [afterFailures length]. unfold retryDelay. f_equal. lia.
Qed.

Lemma renewAuth_accepts (retries : nat) (a : AuthResult) (payload : IdTokenPayload)
      (rest : list RenewResponse) (w : World) :
  tokenPair a ->
  idTokenPayload a = Some payload ->
  tokenHookResolves (config w) ->
  renewAuth (RenewData (Some a) :: rest) retries w
  = (Resolved (mkLoginInfo (idToken a) (sub payload)), rest,
     snd (tokenRefreshed a (emit EvRenewAuth w))).
Proof.
  intros Hpair Hpay Hhook. cbn [renewAuth]. unfold renewAnswered.
  unfold tokenPair in Hpair. rewrite Hpair.
  destruct (tokenRefreshed_fields a (emit EvRenewAuth w))
    as (_ & _ & _ & _ & _ & _ & _ & Hr).
  destruct (tokenRefreshed a (emit EvRenewAuth w)) as [refreshed w1].
  cbn [fst snd] in *. unfold tokenHookResolves in Hhook.
  cbn [config emit] in Hr. rewrite Hhook in Hr. subst refreshed.
  rewrite Hpay. reflexivity.
Qed.

Lemma tokenRefreshed_clock_still (a : AuthResult) (w : World) :
  ticks w = [] -> now (snd (tokenRefreshed a w)) = now w.
Proof.
  intros Hticks. unfold tokenRefreshed.
  set (w1 := set_authResult (Some a) w).
  destruct (clearRefreshTimer_fields w1) as (_ & _ & _ & Hn & Htk & _).
  unfold getRemainingMillisToTokenEpxiry, Date_now. rewrite Htk.
  change (ticks w1) with (ticks w). rewrite Hticks. cbn zeta. rewrite Htk.
  change (ticks w1) with (ticks w). rewrite Hticks. unfold setTimeout. cbn zeta.
  destruct (configuredHook hook_tokenRefreshed _); cbn; exact Hn.
Qed.

(** X3.  Up to four transient failures in a row never surface: when they
    are followed by an answer with a token pair (and the token-refreshed
    hook, if any, resolves), [renewAuth()] resolves with that answer's id
    token and subject, having asked the provider once per failure and once
    more and stored the new token; on a clock that does not drift while
    it is read, the pauses add up to 1000 ms per failure. *)
Theorem transient_failures_are_absorbed :
  forall (errs : list JsError) (a : AuthResult) (payload : IdTokenPayload)
         (rest : list RenewResponse) (w : World),
    (length errs <= 4)%nat ->
    Forall transient errs ->
    tokenPair a ->
    idTokenPayload a = Some payload ->
    tokenHookResolves (config w) ->
    exists w',
      renewAuth (map RenewError errs ++ RenewData (Some a) :: rest) 0 w
      = (Resolved (mkLoginInfo (idToken a) (sub payload)), rest, w')
      /\ authResult w' = Some a
      /\ providerCalls w' = (providerCalls w + length errs + 1)%nat
      /\ (ticks w = [] -> now w' = now w + 1000 * Z.of_nat (length errs)).
Proof.
  intros errs a payload rest w Hlen Htr Hpair Hpay Hhook.
  rewrite (renewAuth_absorbs errs 0 _ w) by (cbn; lia || exact Htr).
  cbn [Nat.add].
  pose proof (afterFailures_quiet errs 0 w) as (Hc & _).
  rewrite (renewAuth_accepts _ a payload rest _ Hpair Hpay)
    by (unfold tokenHookResolves; rewrite Hc; exact Hhook).
  eexists. split; [reflexivity|].
  destruct (tokenRefreshed_fields a (emit EvRenewAuth (afterFailures errs 0 w)))
    as (_ & Ha & _).
  split; [exact Ha|]. split.
  - unfold providerCalls at 1.
    rewrite (selected_tokenRefreshed isRenewAuth renew_events_only).
    fold (providerCalls (emit EvRenewAuth (afterFailures errs 0 w))).
    rewrite providerCalls_call, afterFailures_calls. lia.
  - intros Hticks. destruct (afterFailures_clock errs 0 w) as [Hnow Htk].
    rewrite tokenRefreshed_clock_still by (cbn [ticks emit]; congruence).
    exact Hnow.
Qed.

Lemma transient_failures_are_absorbed_witness :
  exists w',
    renewAuth (map RenewError [timeoutError; networkError]
               ++ RenewData (Some token90) :: []) 0 freshWorld
    = (Resolved (mkLoginInfo (idToken token90) (sub (mkPayload "auth0|1"))), [], w')
    /\ authResult w' = Some token90
    /\ providerCalls w'
       = (providerCalls freshWorld + length [timeoutError; networkError] + 1)%nat
    /\ (ticks freshWorld = [] ->
        now w' = now freshWorld
                 + 1000 * Z.of_nat (length [timeoutError; networkError])).
Proof.
  apply (transient_failures_are_absorbed [timeoutError; networkError] token90
           (mkPayload "auth0|1") [] freshWorld).
  - cbn. lia.
  - repeat constructor.
  - reflexivity.
  - reflexivity.
  - reflexivity.
Defined.

(** ** What no history changes *)

Lemma run_keeps_config (ops : list Op) (w : World) : config (run ops w) = config w.
Proof.
  apply (I_run_all (fun x => config x = config w)); try reflexivity.
  - intros t ds x H. exact H.
  - intros ev x H. exact H.
  - intros a x H. destruct (tokenRefreshed_fields a x) as (-> & _). exact H.
  - intros x H. destruct (removeLogin_fields x) as (-> & _). exact H.
  - intros id x H. exact H.
  - intros x H. destruct (logout_fields x) as (-> & _). exact H.
Qed.

(** X4.  The configuration handed to the constructor is never replaced:
    after any sequence of calls, timer firings and pauses the instance
    still holds the configuration it started with, and so the logout URL
    it would go to stays the same. *)
Theorem config_is_never_replaced :
  forall (ops : list Op) (w : World),
    config (run ops w) = config w
    /\ logoutUrl (config (run ops w)) = logoutUrl (config w).
Proof.
  intros ops w. rewrite run_keeps_config. split; reflexivity.
Qed.

(** X5.  Only [logout] sends the window somewhere: a history without a
    [logout] call leaves [window.location] as it was, whatever the
    collaborators answer. *)
Theorem only_logout_navigates :
  forall (ops : list Op) (w : World),
    forallb (fun op => negb (isLogoutOp op)) ops = true ->
    location (run ops w) = location w.
Proof.
  intros ops w Hops.
  apply (I_run (fun x => location x = location w)); try reflexivity; try assumption.
  - intros t ds x H. exact H.
  - intros ev x H. exact H.
  - intros a x H.
    destruct (tokenRefreshed_fields a x) as (_ & _ & _ & _ & _ & -> & _). exact H.
  - intros x H.
    destruct (removeLogin_fields x) as (_ & _ & _ & _ & _ & -> & _). exact H.
  - intros id x H. exact H.
Qed.

Lemma only_logout_navigates_witness :
  location (run [OpTokenRefreshed token90; OpRemoveLogin;
                 OpEnsureLoggedIn (mkConfiguration true)
                   (mkOracle [RenewData (Some deniedAnswer)]
                             [LockAuthorizationError timeoutError] [] []);
                 OpElapse 5000] freshWorld)
  = location freshWorld.
Proof.
  apply (only_logout_navigates
           [OpTokenRefreshed token90; OpRemoveLogin;
            OpEnsureLoggedIn (mkConfiguration true)
              (mkOracle [RenewData (Some deniedAnswer)]
                        [LockAuthorizationError timeoutError] [] []);
            OpElapse 5000] freshWorld).
  reflexivity.
Defined.

(** ** Pending timers belong to a stored token *)

Lemma tidy_no_timers (w : World) : timers w = ∅ -> tidy w.
Proof. intros H id t. rewrite H, lookup_empty. done. Qed.

Lemma coherent_tidy_run (ops : list Op) (w : World) :
  coherent w /\ tidy w -> coherent (run ops w) /\ tidy (run ops w).
Proof.
  apply (I_run_all (fun x => coherent x /\ tidy x)).
  - intros t ds x [Hc Ht]. split; [|exact Ht].
    apply (quiet_sound x); [apply quiet_set_clock | exact Hc].
  - intros ev x [Hc Ht]. split; [|exact Ht].
    apply (quiet_sound x); [apply quiet_emit | exact Hc].
  - intros a x [Hc Ht]. split; [apply (sound_tokenRefreshed a x), Hc|].
    destruct (tokenRefreshed_fields a x) as (_ & Ha & _ & _ & Hts & _).
    intros id t. rewrite Hts, (coherent_cleared x Hc), insert_empty.
    intros [_ <-]%lookup_singleton_Some. rewrite Ha. done.
  - intros x [Hc Ht]. split; [apply (sound_removeLogin x), Hc|].
    apply tidy_no_timers.
    destruct (removeLogin_fields x) as (_ & _ & _ & _ & -> & _).
    apply coherent_cleared, Hc.
  - intros id x [Hc Ht]. split; [apply (sound_timer_dropped id x), Hc|].
    intros k t. cbn [timers set_timers authResult]. rewrite lookup_delete.
    case_decide; [done | apply Ht].
  - intros x [Hc Ht]. split; [apply (sound_logout x), Hc|].
    apply tidy_no_timers.
    destruct (logout_fields x) as (_ & _ & _ & _ & -> & _).
    apply coherent_cleared, Hc.
Qed.

(** X6.  In every world an instance can be in, a pending renewal timer
    runs [ensureLoggedIn({enableLockWidget: true})] and there is a stored
    token it belongs to: no timer outlives [removeLogin] or [logout]. *)
Theorem pending_timer_belongs_to_a_token :
  forall (w : World) (id : Z) (t : Timer),
    reachable w ->
    timers w !! id = Some t ->
    callback t = CallEnsureLoggedIn true
    /\ tokenRefreshHandle w = Some id
    /\ exists tok, authResult w = Some tok.
Proof.
  intros w id t (c & t0 & ds & ops & ->) Hid.
  destruct (coherent_tidy_run ops (constructor c t0 ds)) as [Hc Ht].
  { split; [apply coherent_constructor | apply tidy_no_timers; reflexivity]. }
  destruct (Ht id t Hid) as [Hcb Ha].
  split; [exact Hcb|]. split; [apply (coh_timers _ Hc id t Hid)|].
  destruct (authResult (run ops (constructor c t0 ds))) as [tok|]; [|done].
  exists tok. reflexivity.
Qed.

Lemma pending_timer_belongs_to_a_token_witness :
  callback (mkTimer (CallEnsureLoggedIn true) 60000) = CallEnsureLoggedIn true
  /\ tokenRefreshHandle activeWorld = Some 1
  /\ exists tok, authResult activeWorld = Some tok.
Proof.
  apply (pending_timer_belongs_to_a_token activeWorld 1
           (mkTimer (CallEnsureLoggedIn true) 60000)).
  - exists None, 0, [], [OpTokenRefreshed token90]. reflexivity.
  - vm_compute. reflexivity.
Defined.

(** ** After [removeLogin] and [logout] *)

(** Once the provider has been asked, the rest of [ensureLoggedIn] only
    adds to the trace. *)
Lemma asked_stays_asked (base : list Event) (c : Configuration) (o : Oracle)
      (w : World) :
  authResult w = None ->
  base = trace w ++ [EvRenewAuth] ->
  base `prefix_of` trace (snd (ensureLoggedIn c o w)).
Proof.
  intros Hnone ->. set (I := fun x => (trace w ++ [EvRenewAuth]) `prefix_of` trace x).
  assert (forall t ds x, I x -> I (set_clock t ds x)) as Hclock by (intros; assumption).
  assert (forall ev x, I x -> I (emit ev x)) as Hemit.
  { intros ev x H. unfold I. cbn [trace emit]. apply prefix_app_r, H. }
  assert (forall a x, I x -> I (snd (tokenRefreshed a x))) as Htok.
  { intros a x H. unfold I.
    destruct (tokenRefreshed_fields a x) as (_ & _ & _ & _ & _ & _ & -> & _).
    apply prefix_app_r, H. }
  assert (forall x, I x -> I (snd (removeLogin x))) as Hrem.
  { intros x H. unfold I.
    destruct (removeLogin_fields x) as (_ & _ & _ & _ & _ & _ & -> & _).
    apply prefix_app_r, H. }
  unfold ensureLoggedIn, stillValid, getLatestAuthResult. rewrite Hnone.
  assert (I (emit EvRenewAuth w)) as H0 by (unfold I; reflexivity).
  pose proof (I_renewAuth I Hclock Hemit Htok (renewals o) 0%nat w H0) as H1.
  destruct (renewAuth (renewals o) 0 w) as [[renewed rs] w1]. cbn [snd] in H1.
  destruct renewed as [li|e|];
    try (apply (I_thenProfile I Hemit); exact H1).
  pose proof (I_renewFailed I Hclock Hemit Htok Hrem c e
    (mkOracle rs (lockEvents o) (userInfos o) (users o)) w1 H1) as H2.
  destruct (renewFailed _ _ _ _) as [[acquired o2] w2]. cbn [snd] in H2.
  apply (I_thenProfile I Hemit). exact H2.
Qed.



(** X8.  Logging out really ends the session: in every world an instance
    can be in, the first thing an [ensureLoggedIn] does after [logout] or
    after [removeLogin] is to ask the provider for a silent renewal,
    whatever its argument. *)
Theorem after_logout_the_provider_is_asked :
  forall (w : World) (c : Configuration) (o : Oracle),
    reachable w ->
    (trace (logout w) ++ [EvRenewAuth])
      `prefix_of` trace (snd (ensureLoggedIn c o (logout w)))
    /\ (trace (snd (removeLogin w)) ++ [EvRenewAuth])
         `prefix_of` trace (snd (ensureLoggedIn c o (snd (removeLogin w)))).
Proof.
  intros w c o Hreach.
  pose proof (reachable_coherent w Hreach) as Hcoh.
  split; apply asked_stays_asked; try reflexivity.
  - destruct (logout_fields w) as (_ & -> & _). apply coherent_clearedToken, Hcoh.
  - destruct (removeLogin_fields w) as (_ & -> & _). apply coherent_clearedToken, Hcoh.
Qed.

Lemma after_logout_the_provider_is_asked_witness :
  (trace (logout activeWorld) ++ [EvRenewAuth])
    `prefix_of` trace (snd (ensureLoggedIn (mkConfiguration true) noAnswers
                              (logout activeWorld)))
  /\ (trace (snd (removeLogin activeWorld)) ++ [EvRenewAuth])
       `prefix_of` trace (snd (ensureLoggedIn (mkConfiguration true) noAnswers
                                 (snd (removeLogin activeWorld)))).
Proof.
  apply (after_logout_the_provider_is_asked activeWorld (mkConfiguration true) noAnswers).
  exists None, 0, [], [OpTokenRefreshed token90]. reflexivity.
Defined.

(** ** Silent renewal that is answered with a token pair *)

Lemma renewalTimer_emit (a : AuthResult) (ev : Event) (w : World) :
  renewalTimer a (emit ev w) = renewalTimer a w.
Proof. unfold renewalTimer. rewrite !getRemaining_value. reflexivity. Qed.

Lemma renewedWorld_fields (a : AuthResult) (w : World) :
  config (renewedWorld a w) = config w
  /\ authResult (renewedWorld a w) = Some a
  /\ tokenRefreshHandle (renewedWorld a w) = Some (nextTimer w)
  /\ timers (renewedWorld a w) !! nextTimer w
     = Some (renewalTimer a (snd (stillValid w)))
  /\ location (renewedWorld a w) = location w
  /\ trace (renewedWorld a w)
     = trace w ++ [EvRenewAuth] ++ cancelEvents w
       ++ [EvSetTimeout (nextTimer w) (renewalTimer a (snd (stillValid w)))]
       ++ hookEvents (configuredHook hook_tokenRefreshed (config w))
                     (EvHookTokenRefreshed a).
Proof.
  unfold renewedWorld.
  destruct (stillValid_quiet w) as (Hc & Hh & _ & Hn & _ & Hl).
  pose proof (stillValid_trace w) as Htr.
  set (w0 := snd (stillValid w)) in *.
  destruct (tokenRefreshed_fields a (emit EvRenewAuth w0))
    as (Hc1 & Ha1 & Hh1 & _ & Ht1 & Hl1 & Htr1 & _).
  rewrite renewalTimer_emit in Ht1, Htr1.
  unfold cancelEvents in Htr1.
  cbn [config nextTimer location trace tokenRefreshHandle emit] in *.
  rewrite Hc1, Ha1, Hh1, Ht1, Hl1, Htr1, Hc, Hh, Hn, Hl, Htr.
  rewrite lookup_insert_eq, <- !app_assoc. repeat split; reflexivity.
Qed.

Lemma ensureLoggedIn_renewed (c : Configuration) (o : Oracle) (w : World)
      (a : AuthResult) (payload : IdTokenPayload) (rest : list RenewResponse) :
  fst (stillValid w) = false ->
  renewals o = RenewData (Some a) :: rest ->
  tokenPair a ->
  idTokenPayload a = Some payload ->
  tokenHookResolves (config w) ->
  ensureLoggedIn c o w
  = thenProfile (Resolved (mkLoginInfo (idToken a) (sub payload)))
                (mkOracle rest (lockEvents o) (userInfos o) (users o))
                (renewedWorld a w).
Proof.
  intros Hguard Hren Hpair Hpay Hhook. unfold ensureLoggedIn, renewedWorld.
  destruct (stillValid_quiet w) as (Hc & _).
  destruct (stillValid w) as [valid w0]. cbn [fst snd] in *. subst valid.
  rewrite Hren, (renewAuth_accepts 0 a payload rest w0 Hpair Hpay)
    by (unfold tokenHookResolves; rewrite Hc; exact Hhook).
  reflexivity.
Qed.



(** X10.  A failed profile fetch is not retried and does not undo the
    login: when silent renewal has succeeded and the management API
    answers with an error, [ensureLoggedIn] rejects with that error, the
    profile-refreshed hook is not called, and the new token stays stored
    with its renewal timer pending. *)
Theorem profile_failure_keeps_the_login :
  forall (c : Configuration) (o : Oracle) (w : World) (a : AuthResult)
         (payload : IdTokenPayload) (rest : list RenewResponse)
         (e : JsError) (us : list GetUserResponse),
    fst (stillValid w) = false ->
    renewals o = RenewData (Some a) :: rest ->
    tokenPair a ->
    idTokenPayload a = Some payload ->
    tokenHookResolves (config w) ->
    users o = GetUserError e :: us ->
    exists w',
      ensureLoggedIn c o w
      = (Rejected e, mkOracle rest (lockEvents o) (userInfos o) us, w')
      /\ getLatestAuthResult w' = Some a
      /\ timers w' !! nextTimer w = Some (renewalTimer a (snd (stillValid w)))
      /\ trace w'
         = trace w ++ [EvRenewAuth] ++ cancelEvents w
           ++ [EvSetTimeout (nextTimer w) (renewalTimer a (snd (stillValid w)))]
           ++ hookEvents (configuredHook hook_tokenRefreshed (config w))
                         (EvHookTokenRefreshed a)
           ++ [EvGetUser (idToken a) (sub payload)].
Proof.
  intros c o w a payload rest e us Hguard Hren Hpair Hpay Hhook Hus.
  rewrite (ensureLoggedIn_renewed c o w a payload rest) by assumption.
  destruct (renewedWorld_fields a w) as (Hc & Ha & Hh & Ht & _ & Htr).
  unfold thenProfile, getDetailedProfile.
  cbn [users li_idToken li_sub]. rewrite Hus.
  eexists. split; [reflexivity|].
  cbn [getLatestAuthResult authResult timers trace emit].
  rewrite Htr, <- !app_assoc. repeat split; assumption || reflexivity.
Qed.

Lemma profile_failure_keeps_the_login_witness :
  exists w',
    ensureLoggedIn (mkConfiguration true)
      (mkOracle [RenewData (Some token90)] [] [] [GetUserError networkError]) freshWorld
    = (Rejected networkError, mkOracle [] [] [] [], w')
    /\ getLatestAuthResult w' = Some token90
    /\ timers w' !! nextTimer freshWorld
       = Some (renewalTimer token90 (snd (stillValid freshWorld)))
    /\ trace w'
       = trace freshWorld ++ [EvRenewAuth] ++ cancelEvents freshWorld
         ++ [EvSetTimeout (nextTimer freshWorld)
               (renewalTimer token90 (snd (stillValid freshWorld)))]
         ++ hookEvents (configuredHook hook_tokenRefreshed (config freshWorld))
                       (EvHookTokenRefreshed token90)
         ++ [EvGetUser (idToken token90) (sub (mkPayload "auth0|1"))].
Proof.
  apply (profile_failure_keeps_the_login (mkConfiguration true)
           (mkOracle [RenewData (Some token90)] [] [] [GetUserError networkError])
           freshWorld token90 (mkPayload "auth0|1") [] networkError []);
    reflexivity.
Defined.

(** X11.  [renewAuth] waits for the token-refreshed hook with a [.then]
    only: when the hook's promise rejects or never settles, the promise of
    [renewAuth] is never settled, and neither is that of [ensureLoggedIn];
    the token is stored all the same, and the profile is not fetched nor
    the widget opened. *)
Theorem token_hook_failure_leaves_pending :
  forall (c : Configuration) (o : Oracle) (w : World) (a : AuthResult)
         (rest : list RenewResponse),
    fst (stillValid w) = false ->
    renewals o = RenewData (Some a) :: rest ->
    tokenPair a ->
    hookResult (configuredHook hook_tokenRefreshed (config w)) <> Resolved tt ->
    ensureLoggedIn c o w
    = (Pending, mkOracle rest (lockEvents o) (userInfos o) (users o), renewedWorld a w)
    /\ getLatestAuthResult (renewedWorld a w) = Some a
    /\ trace (renewedWorld a w)
       = trace w ++ [EvRenewAuth] ++ cancelEvents w
         ++ [EvSetTimeout (nextTimer w) (renewalTimer a (snd (stillValid w)))]
         ++ [EvHookTokenRefreshed a].
Proof.
  intros c o w a rest Hguard Hren Hpair Hhook.
  destruct (renewedWorld_fields a w) as (_ & Ha & _ & _ & _ & Htr).
  split; [|split; [exact Ha|]].
  - unfold ensureLoggedIn, renewedWorld.
    destruct (stillValid_quiet w) as (Hc & _).
    destruct (stillValid w) as [valid w0]. cbn [fst snd] in *. subst valid.
    rewrite Hren. cbn [renewAuth]. unfold renewAnswered.
    unfold tokenPair in Hpair. rewrite Hpair.
    destruct (tokenRefreshed_fields a (emit EvRenewAuth w0))
      as (_ & _ & _ & _ & _ & _ & _ & Hr).
    cbn [config emit] in Hr. rewrite Hc in Hr.
    destruct (tokenRefreshed a (emit EvRenewAuth w0)) as [refreshed w1].
    cbn [fst snd] in *. rewrite <- Hr in Hhook.
    destruct refreshed as [[]|e|]; [done | |];
      destruct (idTokenPayload a); reflexivity.
  - rewrite Htr.
    destruct (configuredHook hook_tokenRefreshed (config w)) as [b|];
      [reflexivity | done].
Qed.

(** ** The widget path that succeeds *)






Lemma token_hook_failure_leaves_pending_witness :
  ensureLoggedIn (mkConfiguration true)
    (mkOracle [RenewData (Some token90)] [] [] [GetUserProfile "profile"])
    (constructor (Some rejectingHookConfig) 0 [])
  = (Pending, mkOracle [] [] [] [GetUserProfile "profile"],
     renewedWorld token90 (constructor (Some rejectingHookConfig) 0 []))
  /\ getLatestAuthResult
       (renewedWorld token90 (constructor (Some rejectingHookConfig) 0 []))
     = Some token90
  /\ trace (renewedWorld token90 (constructor (Some rejectingHookConfig) 0 []))
     = trace (constructor (Some rejectingHookConfig) 0 []) ++ [EvRenewAuth]
       ++ cancelEvents (constructor (Some rejectingHookConfig) 0 [])
       ++ [EvSetTimeout (nextTimer (constructor (Some rejectingHookConfig) 0 []))
             (renewalTimer token90
                (snd (stillValid (constructor (Some rejectingHookConfig) 0 []))))]
       ++ [EvHookTokenRefreshed token90].
Proof.
  apply (token_hook_failure_leaves_pending (mkConfiguration true)
           (mkOracle [RenewData (Some token90)] [] [] [GetUserProfile "profile"])
           (constructor (Some rejectingHookConfig) 0 []) token90 []);
    try reflexivity.
  vm_compute. discriminate.
Defined.

(** ** After the renewal timer has fired *)

(** X13.  The scheduled renewal happens at most once per token.  In every
    world an instance can be in, with a stored token with [expiresIn > 0]
    (and a clock that moves by at most 997 ms between the two readings of
    a call), the firing of the pending timer resolves at once without
    asking the provider and without scheduling anything: the token is
    unchanged and no timer is pending any more, so nothing is left to
    fire. *)
Theorem fired_timer_schedules_nothing :
  forall (w : World) (tok : AuthResult) (id : Z) (t : Timer) (o : Oracle),
    reachable w ->
    authResult w = Some tok ->
    0 < expiresIn tok ->
    drift w <= 997 ->
    timers w !! id = Some t ->
    exists w',
      fireTimer id o w = Some (Resolved tt, o, w')
      /\ getLatestAuthResult w' = Some tok
      /\ timers w' = ∅
      /\ providerCalls w' = providerCalls w
      /\ (forall (id' : Z) (o' : Oracle), fireTimer id' o' w' = None).
Proof.
  intros w tok id t o Hreach Ha Hexp Hdrift Hid.
  pose proof (reachable_coherent w Hreach) as Hcoh.
  pose proof (coh_timers _ Hcoh id t Hid) as Hh.
  unfold fireTimer. rewrite Hid. destruct (callback t) as [b].
  set (w1 := set_timers (nextTimer w) (delete id (timers w)) w).
  assert (0 < fst (getRemainingMillisToTokenEpxiry tok w1)) as Hpos.
  { rewrite getRemaining_value. change (drift w1) with (drift w).
    apply remainingMillis_positive. lia. }
  rewrite (ensureLoggedIn_valid _ o w1 tok Ha Hpos).
  destruct (quiet_getRemaining tok w1) as (_ & _ & Ha' & _ & Ht' & _).
  pose proof (trace_getRemaining tok w1) as Htr'.
  set (w' := snd (getRemainingMillisToTokenEpxiry tok w1)) in *.
  assert (timers w' = ∅) as Hempty.
  { rewrite Ht'. subst w1. cbn [timers set_timers].
    apply (coherent_delete_handle w id Hcoh Hh). }
  exists w'. split; [reflexivity|]. split; [|split; [|split]].
  - unfold getLatestAuthResult. rewrite Ha'. exact Ha.
  - exact Hempty.
  - unfold providerCalls, selected. rewrite Htr'. reflexivity.
  - intros id' o'. unfold fireTimer. rewrite Hempty, lookup_empty. reflexivity.
Qed.

Lemma fired_timer_schedules_nothing_witness :
  exists w',
    fireTimer 1 noAnswers activeWorld = Some (Resolved tt, noAnswers, w')
    /\ getLatestAuthResult w' = Some token90
    /\ timers w' = ∅
    /\ providerCalls w' = providerCalls activeWorld
    /\ (forall (id' : Z) (o' : Oracle), fireTimer id' o' w' = None).
Proof.
  apply (fired_timer_schedules_nothing activeWorld token90 1
           (mkTimer (CallEnsureLoggedIn true) 60000) noAnswers).
  - exists None, 0, [], [OpTokenRefreshed token90]. reflexivity.
  - reflexivity.
  - reflexivity.
  - vm_compute. discriminate.
  - vm_compute. reflexivity.
Defined.

(** ** [logout] when [encodeURIComponent] throws *)

(** X14.  [logout] escapes the redirect URI only after it has cleared the
    session.  In every world an instance can be in: when the configured
    redirect URI holds a surrogate half without its other half,
    [encodeURIComponent] throws and [logout] ends there, the timer
    cancelled, the token cleared and the logout hook called, but the
    window not sent anywhere; otherwise [logout] does not throw and the
    window goes to the logout URL. *)
Theorem logout_throws_after_clearing :
  forall w : World,
    reachable w ->
    logoutThrows w = negb (wellFormed (js_units (logoutRedirectUri (config w))))
    /\ timers (logout w) = ∅
    /\ getLatestAuthResult (logout w) = None
    /\ (logoutThrows w = true ->
        location (logout w) = location w
        /\ trace (logout w)
           = trace w
             ++ match tokenRefreshHandle w with
                | Some id => [EvClearTimeout id]
                | None => []
                end
             ++ logoutHookEvents (config w))
    /\ (logoutThrows w = false ->
        exists url, location (logout w) = Some url
                    /\ last (trace (logout w)) = Some (EvUpdateWindow url)).
Proof.
  intros w Hreach.
  pose proof (reachable_coherent w Hreach) as Hcoh.
  destruct (logout_fields w) as (_ & Ha & _ & _ & Ht & Hl & Htr).
  rewrite (coherent_cancelEvents w Hcoh) in Htr.
  split; [|split; [|split; [|split]]].
  - unfold logoutThrows, logoutUrl.
    destruct (encodeURIComponent (js_units (logoutRedirectUri (config w))))
      as [r|] eqn:E.
    + destruct (wellFormed _) eqn:Hwf; [reflexivity|].
      apply encodeURIComponent_throws in Hwf. congruence.
    + apply encodeURIComponent_throws in E. rewrite E. reflexivity.
  - rewrite Ht. apply coherent_cleared, Hcoh.
  - unfold getLatestAuthResult. rewrite Ha. apply coherent_clearedToken, Hcoh.
  - unfold logoutThrows. intros Hthrow.
    destruct (logoutUrl (config w)) as [url|]; [discriminate|].
    rewrite app_nil_r in Htr. split; assumption.
  - unfold logoutThrows. intros Hthrow.
    destruct (logoutUrl (config w)) as [url|]; [|discriminate].
    exists url. split; [exact Hl|].
    rewrite Htr, !app_assoc. apply last_snoc.
Qed.

Lemma logout_throws_after_clearing_witness :
  logoutThrows (activeWith loneSurrogateConfig)
  = negb (wellFormed (js_units (logoutRedirectUri (config (activeWith loneSurrogateConfig)))))
  /\ timers (logout (activeWith loneSurrogateConfig)) = ∅
  /\ getLatestAuthResult (logout (activeWith loneSurrogateConfig)) = None
  /\ (logoutThrows (activeWith loneSurrogateConfig) = true ->
      location (logout (activeWith loneSurrogateConfig))
      = location (activeWith loneSurrogateConfig)
      /\ trace (logout (activeWith loneSurrogateConfig))
         = trace (activeWith loneSurrogateConfig)
           ++ match tokenRefreshHandle (activeWith loneSurrogateConfig) with
              | Some id => [EvClearTimeout id]
              | None => []
              end
           ++ logoutHookEvents (config (activeWith loneSurrogateConfig)))
  /\ (logoutThrows (activeWith loneSurrogateConfig) = false ->
      exists url, location (logout (activeWith loneSurrogateConfig)) = Some url
                  /\ last (trace (logout (activeWith loneSurrogateConfig)))
                     = Some (EvUpdateWindow url)).
Proof.
  apply (logout_throws_after_clearing (activeWith loneSurrogateConfig)).
  exact (activeWith_reachable loneSurrogateConfig).
Defined.

(** ** When the silent renewal ends in a rejection *)

Lemma ensureLoggedIn_rejected (c : Configuration) (o : Oracle) (w w1 : World)
      (e : JsError) (rs : list RenewResponse) :
  fst (stillValid w) = false ->
  renewAuth (renewals o) 0 (snd (stillValid w)) = (Rejected e, rs, w1) ->
  ensureLoggedIn c o w
  = (let '(acquired, o2, w2) :=
       renewFailed c e (mkOracle rs (lockEvents o) (userInfos o) (users o)) w1 in
     thenProfile acquired o2 w2).
Proof.
  intros Hguard Hren. unfold ensureLoggedIn.
  destruct (stillValid w) as [valid w0]. cbn [fst snd] in *. subst valid.
  rewrite Hren. reflexivity.
Qed.

Lemma renewal_keeps_coherence (o : Oracle) (w w1 : World) (r : Outcome LoginInfo)
      (rs : list RenewResponse) :
  coherent w ->
  renewAuth (renewals o) 0 (snd (stillValid w)) = (r, rs, w1) ->
  coherent w1.
Proof.
  intros Hcoh Hren.
  pose proof (sound_renewAuth (renewals o) 0%nat (snd (stillValid w))) as [H _].
  rewrite Hren in H. cbn [snd] in H. apply H.
  apply (quiet_sound w); [apply stillValid_quiet | exact Hcoh].
Qed.

(** X15.  With the widget disabled, a silent renewal that ends in a
    rejection always logs the session out: in every world an instance can
    be in, [ensureLoggedIn] rejects with exactly the error the renewal
    ended with, and afterwards no token is stored (an expired one is
    dropped) and no renewal timer is pending. *)
Theorem failed_renewal_logs_out :
  forall (o : Oracle) (w w1 : World) (e : JsError) (rs : list RenewResponse),
    reachable w ->
    fst (stillValid w) = false ->
    renewAuth (renewals o) 0 (snd (stillValid w)) = (Rejected e, rs, w1) ->
    ensureLoggedIn (mkConfiguration false) o w
    = (Rejected e, mkOracle rs (lockEvents o) (userInfos o) (users o),
       snd (removeLogin w1))
    /\ getLatestAuthResult (snd (removeLogin w1)) = None
    /\ timers (snd (removeLogin w1)) = ∅.
Proof.
  intros o w w1 e rs Hreach Hguard Hren.
  pose proof (renewal_keeps_coherence o w w1 _ rs
                (reachable_coherent w Hreach) Hren) as Hcoh1.
  destruct (removeLogin_fields w1) as (_ & Ha & _ & _ & Ht & _).
  split; [|split].
  - rewrite (ensureLoggedIn_rejected _ o w w1 e rs Hguard Hren). reflexivity.
  - unfold getLatestAuthResult. rewrite Ha. apply coherent_clearedToken, Hcoh1.
  - rewrite Ht. apply coherent_cleared, Hcoh1.
Qed.

Lemma failed_renewal_logs_out_witness :
  ensureLoggedIn (mkConfiguration false)
    (mkOracle [RenewData (Some deniedAnswer)] [] [] []) expiredWorld
  = (Rejected (noTokenAvailable deniedAnswer), mkOracle [] [] [] [],
     snd (removeLogin (emit EvRenewAuth (snd (stillValid expiredWorld)))))
  /\ getLatestAuthResult
       (snd (removeLogin (emit EvRenewAuth (snd (stillValid expiredWorld))))) = None
  /\ timers (snd (removeLogin (emit EvRenewAuth (snd (stillValid expiredWorld))))) = ∅.
Proof.
  apply (failed_renewal_logs_out
           (mkOracle [RenewData (Some deniedAnswer)] [] [] []) expiredWorld
           (emit EvRenewAuth (snd (stillValid expiredWorld)))
           (noTokenAvailable deniedAnswer) []).
  - exact expiredWorld_reachable.
  - vm_compute. reflexivity.
  - reflexivity.
Defined.

(** X16.  On the widget path an ['authorization_error'] event is logged
    and rejects the promise with its error; the widget stays open (it is
    not hidden), the session is logged out, and the profile is not
    fetched. *)
Theorem authorization_error_rejects :
  forall (o : Oracle) (w w1 : World) (e0 e : JsError) (rs : list RenewResponse)
         (les : list LockEvent),
    reachable w ->
    fst (stillValid w) = false ->
    renewAuth (renewals o) 0 (snd (stillValid w)) = (Rejected e0, rs, w1) ->
    lockEvents o = LockAuthorizationError e :: les ->
    exists w',
      ensureLoggedIn (mkConfiguration true) o w
      = (Rejected e, mkOracle rs les (userInfos o) (users o), w')
      /\ getLatestAuthResult w' = None
      /\ timers w' = ∅
      /\ trace w'
         = trace (snd (removeLogin w1))
           ++ [EvLog (logSink (config w)) MsgFallbackToWidget;
               EvLockNew (lockOptions (config w)); EvLockShow;
               EvLog (logSink (config w)) (MsgError e)].
Proof.
  intros o w w1 e0 e rs les Hreach Hguard Hren Hlock.
  pose proof (renewal_keeps_coherence o w w1 _ rs
                (reachable_coherent w Hreach) Hren) as Hcoh1.
  assert (config w1 = config w) as Hc1.
  { pose proof (run_keeps_config
                  [OpRenewAuth (renewals o) 0] (snd (stillValid w))) as H.
    cbn [run fold_left perform] in H. rewrite Hren in H. cbn [snd] in H.
    rewrite H. apply stillValid_quiet. }
  destruct (removeLogin_fields w1) as (Hc2 & Ha & _ & _ & Ht & _).
  rewrite (ensureLoggedIn_rejected _ o w w1 e0 rs Hguard Hren).
  unfold renewFailed. cbn [enableLockWidget negb lockEvents].
  rewrite Hlock. cbn [lockSession thenProfile renewals userInfos users].
  eexists. split; [reflexivity|].
  cbn [getLatestAuthResult authResult timers trace config emit log].
  rewrite Hc2, Hc1, Ha, Ht, <- !app_assoc.
  split; [apply coherent_clearedToken, Hcoh1|].
  split; [apply coherent_cleared, Hcoh1 | reflexivity].
Qed.

Lemma authorization_error_rejects_witness :
  exists w',
    ensureLoggedIn (mkConfiguration true)
      (mkOracle [RenewData (Some deniedAnswer)]
                [LockAuthorizationError networkError] [] []) expiredWorld
    = (Rejected networkError, mkOracle [] [] [] [], w')
    /\ getLatestAuthResult w' = None
    /\ timers w' = ∅
    /\ trace w'
       = trace (snd (removeLogin (emit EvRenewAuth (snd (stillValid expiredWorld)))))
         ++ [EvLog (logSink (config expiredWorld)) MsgFallbackToWidget;
             EvLockNew (lockOptions (config expiredWorld)); EvLockShow;
             EvLog (logSink (config expiredWorld)) (MsgError networkError)].
Proof.
  apply (authorization_error_rejects
           (mkOracle [RenewData (Some deniedAnswer)]
                     [LockAuthorizationError networkError] [] [])
           expiredWorld (emit EvRenewAuth (snd (stillValid expiredWorld)))
           (noTokenAvailable deniedAnswer) networkError [] []).
  - exact expiredWorld_reachable.
  - vm_compute. reflexivity.
  - reflexivity.
  - reflexivity.
Defined.

(** ** When the renewal timer is set to fire *)

(** X17.  [tokenRefreshed] sets the renewal timer to two thirds of the
    token's lifetime, rounded down to an even number of milliseconds: for
    a non-negative lifetime and clock, with no reading before the previous
    one and everything below 2^53 (where the code's doubles are exact),
    three times the delay is at most twice the lifetime and misses twice
    the lifetime left after the drift by less than 6; so for
    [expiresIn > 0] the timer fires before the lifetime is over. *)
Theorem renewal_timer_delay :
  forall (a : AuthResult) (w : World),
    inExactRange a w ->
    timers (snd (tokenRefreshed a w)) !! nextTimer w = Some (renewalTimer a w)
    /\ 3 * delay (renewalTimer a w) <= 2 * (expiresIn a * 1000)
    /\ 2 * (expiresIn a * 1000 - drift w) < 3 * delay (renewalTimer a w) + 6
    /\ (0 < expiresIn a -> delay (renewalTimer a w) < expiresIn a * 1000).
Proof.
  intros a w (Hexp & Hnow & Hd & Hmax).
  destruct (tokenRefreshed_fields a w) as (_ & _ & _ & _ & Ht & _).
  split; [rewrite Ht; apply lookup_insert_eq|].
  unfold renewalTimer. cbn [delay]. rewrite getRemaining_value, remainingMillis_drift.
  pose proof (Z.div_mod (expiresIn a * 1000 - drift w) 3 ltac:(lia)) as Hdiv.
  pose proof (Z.mod_pos_bound (expiresIn a * 1000 - drift w) 3 ltac:(lia)) as Hmod.
  repeat split; try lia.
Qed.

Lemma renewal_timer_delay_witness :
  timers (snd (tokenRefreshed token90 freshWorld)) !! nextTimer freshWorld
  = Some (renewalTimer token90 freshWorld)
  /\ 3 * delay (renewalTimer token90 freshWorld) <= 2 * (expiresIn token90 * 1000)
  /\ 2 * (expiresIn token90 * 1000 - drift freshWorld)
     < 3 * delay (renewalTimer token90 freshWorld) + 6
  /\ (0 < expiresIn token90 ->
      delay (renewalTimer token90 freshWorld) < expiresIn token90 * 1000).
Proof.
  apply (renewal_timer_delay token90 freshWorld).
  unfold inExactRange. cbn. lia.
Defined.

(** ** The retry policy, attempt by attempt *)

Lemma providerCalls_renewAnswered (retries : nat) (r : RenewResponse) (w : World) :
  providerCalls (snd (renewAnswered retries r (emit EvRenewAuth w)))
  = S (providerCalls w).
Proof.
  unfold providerCalls at 1.
  rewrite (selected_renewAnswered isRenewAuth renew_events_only).
  apply providerCalls_call.
Qed.

(** What [renewAuth] does after a failed attempt, seen from outside. *)
Lemma failed_attempt_outcome (retries : nat) (r : RenewResponse)
      (rest : list RenewResponse) (w w1 : World) (e : JsError) :
  renewAnswered retries r (emit EvRenewAuth w) = (Rejected e, w1) ->
  ((retries < 4)%nat -> e_authResultError e = None ->
   renewAuth (r :: rest) retries w
   = renewAuth rest (retries + 1) (elapse 1000 (emit (EvRetryDelay 1000) w1))
   /\ asksAgain r rest retries w)
  /\ ((4 <= retries)%nat \/ e_authResultError e <> None ->
      renewAuth (r :: rest) retries w = (Rejected e, rest, w1)
      /\ providerCalls w1 = S (providerCalls w)
      /\ ~ asksAgain r rest retries w).
Proof.
  intros Hans.
  pose proof (providerCalls_renewAnswered retries r w) as Hcalls.
  rewrite Hans in Hcalls. cbn [snd] in Hcalls.
  pose proof (renewAuth_rejected retries r rest w w1 e Hans) as Hstep.
  split.
  - intros Hn He. rewrite (shouldRetry_transient retries e Hn He) in Hstep.
    split; [exact Hstep|]. unfold asksAgain. rewrite Hstep.
    destruct (providerCalls_renewAuth rest (retries + 1)
                (elapse 1000 (emit (EvRetryDelay 1000) w1))) as [Hlow _].
    rewrite providerCalls_pause in Hlow. lia.
  - intros Hdeny.
    assert (shouldRetry retries e = None) as Hno.
    { destruct Hdeny as [Hn|He];
        [apply shouldRetry_exhausted | apply shouldRetry_permanent]; assumption. }
    rewrite Hno in Hstep. split; [exact Hstep|]. split; [exact Hcalls|].
    unfold asksAgain. rewrite Hstep. cbn [snd]. lia.
Qed.

(** C3 (amended).  A no-token-available rejection is never retried when
    the provider's answer carries an [error] property that is not
    [undefined] ([null] included), whatever the attempt number:
    [renewAuth] rejects at once with that error, leaves the provider's
    later answers alone and does not ask again.  When the [error] of the
    answer is [undefined], the rejection is retried after 1000 ms while
    the attempt number is below 4, and it ends the renewal from attempt 4
    on. *)
Theorem C3_no_token_retried_unless_error :
  forall (retries : nat) (a : AuthResult) (rest : list RenewResponse) (w : World),
    tokenless a ->
    (error a <> None ->
     renewAuth (RenewData (Some a) :: rest) retries w
     = (Rejected (noTokenAvailable a), rest, emit EvRenewAuth w)
     /\ ~ asksAgain (RenewData (Some a)) rest retries w)
    /\ (error a = None -> (retries < 4)%nat ->
        renewAuth (RenewData (Some a) :: rest) retries w
        = renewAuth rest (retries + 1)
            (elapse 1000 (emit (EvRetryDelay 1000) (emit EvRenewAuth w)))
        /\ asksAgain (RenewData (Some a)) rest retries w)
    /\ (error a = None -> (4 <= retries)%nat ->
        renewAuth (RenewData (Some a) :: rest) retries w
        = (Rejected (noTokenAvailable a), rest, emit EvRenewAuth w)
        /\ ~ asksAgain (RenewData (Some a)) rest retries w).
Proof.
  intros retries a rest w Hno.
  assert (renewAnswered retries (RenewData (Some a)) (emit EvRenewAuth w)
          = (Rejected (noTokenAvailable a), emit EvRenewAuth w)) as Hans.
  { unfold renewAnswered. unfold tokenless in Hno. rewrite Hno. reflexivity. }
  destruct (failed_attempt_outcome retries _ rest w _ _ Hans) as [Hretry Hdeny].
  split; [|split].
  - intros Herr. destruct Hdeny as (H1 & _ & H2); [right; exact Herr|].
    split; assumption.
  - intros Herr Hn. apply Hretry; assumption.
  - intros Herr Hn. destruct Hdeny as (H1 & _ & H2); [left; exact Hn|].
    split; assumption.
Qed.

Lemma C3_no_token_retried_unless_error_witness :
  (error deniedAnswer <> None ->
   renewAuth (RenewData (Some deniedAnswer) :: [RenewData (Some token90)]) 2 freshWorld
   = (Rejected (noTokenAvailable deniedAnswer), [RenewData (Some token90)],
      emit EvRenewAuth freshWorld)
   /\ ~ asksAgain (RenewData (Some deniedAnswer)) [RenewData (Some token90)] 2 freshWorld)
  /\ (error deniedAnswer = None -> (2 < 4)%nat ->
      renewAuth (RenewData (Some deniedAnswer) :: [RenewData (Some token90)]) 2 freshWorld
      = renewAuth [RenewData (Some token90)] (2 + 1)
          (elapse 1000 (emit (EvRetryDelay 1000) (emit EvRenewAuth freshWorld)))
      /\ asksAgain (RenewData (Some deniedAnswer)) [RenewData (Some token90)] 2 freshWorld)
  /\ (error deniedAnswer = None -> (4 <= 2)%nat ->
      renewAuth (RenewData (Some deniedAnswer) :: [RenewData (Some token90)]) 2 freshWorld
      = (Rejected (noTokenAvailable deniedAnswer), [RenewData (Some token90)],
         emit EvRenewAuth freshWorld)
      /\ ~ asksAgain (RenewData (Some deniedAnswer)) [RenewData (Some token90)] 2 freshWorld).
Proof.
  apply (C3_no_token_retried_unless_error
           2 deniedAnswer [RenewData (Some token90)] freshWorld).
  reflexivity.
Defined.

(** An [error] property that is [null] is not [undefined]: the rejection
    is not retried. *)
Example null_error_is_not_retried :
  fst (renewAuth [RenewData (Some nullErrorAnswer); RenewData (Some token90)] 0 freshWorld)
  = (Rejected (noTokenAvailable nullErrorAnswer), [RenewData (Some token90)])
  /\ e_authResultError (noTokenAvailable nullErrorAnswer) = Some JsNull.
Proof. split; reflexivity. Qed.

(** C4 (counterexample).  At attempt 0 the no-token-available rejection
    built from an answer without an [error] property is retried, although
    it is not an error of the kind the claim calls transient. *)
Lemma C4_permanent_kind_is_retried : ~ retry_follows_claimed_classes.
Proof.
  intros H.
  destruct (H 0%nat (RenewData (Some emptyAnswer)) [] freshWorld
              (emit EvRenewAuth freshWorld) (noTokenAvailable emptyAnswer) eq_refl)
    as [Hretried _].
  destruct Hretried as [_ [e He]]; [|discriminate He].
  unfold asksAgain. vm_compute. lia.
Qed.

(** C4 (amended).  After a failed attempt, [renewAuth] asks the provider
    again exactly when the attempt number is 0, 1, 2 or 3 and the error's
    [authResultError] is [undefined], and then it does so after one pause
    of 1000 ms, whatever the attempt number; from attempt 4 on, or when
    [authResultError] is defined ([null] included), it rejects with the
    error, having asked once.  The error is the provider's own when its
    callback reported one, and the no-token-available rejection, whose
    [authResultError] is the [error] property of the answer, when the
    answer has no token pair. *)
Theorem C4_retry_policy :
  forall (retries : nat) (r : RenewResponse) (rest : list RenewResponse)
         (w w1 : World) (e : JsError),
    renewAnswered retries r (emit EvRenewAuth w) = (Rejected e, w1) ->
    (asksAgain r rest retries w
     <-> (retries = 0 \/ retries = 1 \/ retries = 2 \/ retries = 3)%nat
         /\ e_authResultError e = None)
    /\ ((retries < 4)%nat -> e_authResultError e = None ->
        renewAuth (r :: rest) retries w
        = renewAuth rest (retries + 1) (elapse 1000 (emit (EvRetryDelay 1000) w1)))
    /\ ((4 <= retries)%nat \/ e_authResultError e <> None ->
        renewAuth (r :: rest) retries w = (Rejected e, rest, w1)
        /\ providerCalls w1 = S (providerCalls w))
    /\ (forall err, r = RenewError err -> e = err)
    /\ (forall a, r = RenewData (Some a) ->
        tokenless a /\ e = noTokenAvailable a /\ e_authResultError e = error a).
Proof.
  intros retries r rest w w1 e Hans.
  destruct (failed_attempt_outcome retries r rest w w1 e Hans) as [Hretry Hdeny].
  split; [|split; [|split; [|split]]].
  - split.
    + intros Hagain.
      destruct (Nat.ltb_spec retries 4) as [Hn|Hn];
        [|destruct Hdeny as (_ & _ & Hnot); [left; exact Hn | contradiction]].
      destruct (e_authResultError e) as [v|] eqn:He;
        [destruct Hdeny as (_ & _ & Hnot); [right; done | contradiction]|].
      split; [lia | reflexivity].
    + intros [Hn He]. apply Hretry; [lia | exact He].
  - intros Hn He. apply Hretry; assumption.
  - intros Hcase. destruct (Hdeny Hcase) as (H1 & H2 & _). split; assumption.
  - intros err ->. cbn in Hans. congruence.
  - intros a ->. unfold renewAnswered in Hans. unfold tokenless.
    destruct (truthy_string (accessToken a) && truthy_string (idToken a)).
    + destruct (tokenRefreshed a (emit EvRenewAuth w)) as [[] ?];
        destruct (idTokenPayload a); discriminate Hans.
    + injection Hans as <- _. repeat split.
Qed.

Lemma C4_retry_policy_witness :
  (asksAgain (RenewError timeoutError) [RenewData (Some token90)] 3 freshWorld
   <-> (3 = 0 \/ 3 = 1 \/ 3 = 2 \/ 3 = 3)%nat
       /\ e_authResultError timeoutError = None)
  /\ ((3 < 4)%nat -> e_authResultError timeoutError = None ->
      renewAuth (RenewError timeoutError :: [RenewData (Some token90)]) 3 freshWorld
      = renewAuth [RenewData (Some token90)] (3 + 1)
          (elapse 1000 (emit (EvRetryDelay 1000)
             (log (MsgRenewFailed 3 timeoutError) (emit EvRenewAuth freshWorld)))))
  /\ ((4 <= 3)%nat \/ e_authResultError timeoutError <> None ->
      renewAuth (RenewError timeoutError :: [RenewData (Some token90)]) 3 freshWorld
      = (Rejected timeoutError, [RenewData (Some token90)],
         log (MsgRenewFailed 3 timeoutError) (emit EvRenewAuth freshWorld))
      /\ providerCalls (log (MsgRenewFailed 3 timeoutError) (emit EvRenewAuth freshWorld))
         = S (providerCalls freshWorld))
  /\ (forall err, RenewError timeoutError = RenewError err -> timeoutError = err)
  /\ (forall a, RenewError timeoutError = RenewData (Some a) ->
      tokenless a /\ timeoutError = noTokenAvailable a
      /\ e_authResultError timeoutError = error a).
Proof.
  apply (C4_retry_policy 3 (RenewError timeoutError) [RenewData (Some token90)]
           freshWorld
           (log (MsgRenewFailed 3 timeoutError) (emit EvRenewAuth freshWorld))
           timeoutError).
  reflexivity.
Defined.
